(** * Authentication and authorization layer of the tennis-shop backend

    A shallow embedding of [app/dependencies.py], [app/routers/auth.py],
    [app/database.py], [app/utils/exceptions.py], [app/models/user.py] and
    [app/schemas/{user,token}.py], followed by the properties of the
    authentication service and of the authorization gate.

    The module [app.utils.security] is imported by the routers but is not part
    of the source tree.  The routers are therefore embedded over an interface
    ([Security]) that lists the functions they import, and a model of that
    module written from the specification is given in [SecurityModel]. *)

From Stdlib Require Import ZArith Lia Ascii String DecimalString DecimalZ.
From stdpp Require Import base decidable option strings list sorting.

Open Scope string_scope.
Open Scope Z_scope.

(** ** Python string methods *)

Module PyStr.

(** [s.startswith(prefix)] *)
Definition startswith (s prefix : string) : bool := String.prefix prefix s.

(** [sub in s] *)
Fixpoint contains (sub s : string) : bool :=
  String.prefix sub s ||
  match s with
  | EmptyString => false
  | String _ s' => contains sub s'
  end.

(** [s.replace(old, new)] for a non-empty [old]: the occurrences of [old]
    are found from left to right and do not overlap.  [skip] counts the
    characters of the occurrence being replaced that are still to be
    dropped. *)
Fixpoint replace_from (old new : string) (skip : nat) (s : string) : string :=
  match s with
  | EmptyString => EmptyString
  | String c s' =>
      match skip with
      | S k => replace_from old new k s'
      | O =>
          if String.prefix old s
          then new +:+ replace_from old new (String.length old - 1) s'
          else String c (replace_from old new 0 s')
      end
  end.

Definition replace (s old new : string) : string := replace_from old new 0 s.

End PyStr.

(** ** [app/models/user.py] *)

Inductive UserRole := ADMIN | STAFF.

#[global] Instance UserRole_eq_dec : EqDecision UserRole.
Proof. solve_decision. Defined.

Module User.
(** A row of the [users] table.  [id] is the primary key and is stored as a
    string; [email] and [username] carry a unique constraint. *)
Record t := mk {
  id : string;
  email : string;
  username : string;
  hashed_password : string;
  first_name : string;
  last_name : string;
  role : UserRole;
  is_active : bool;
  phone_number : option string;
  created_at : Z;
  updated_at : Z
}.
End User.

(** ** [app/schemas/user.py] and [app/schemas/token.py] *)

Module UserCreate.
Record t := mk {
  email : string;
  username : string;
  first_name : string;
  last_name : string;
  phone_number : option string;
  role : UserRole;
  password : string
}.
End UserCreate.

Module UserLogin.
Record t := mk { username : string; password : string }.
End UserLogin.

Module Token.
Record t := mk {
  access_token : string;
  refresh_token : string;
  token_type : string
}.
End Token.

Module RefreshTokenRequest.
Record t := mk { refresh_token : string }.
End RefreshTokenRequest.

Module TokenPayload.
(** The claims dictionary of a token, typed as [TokenPayload] declares its
    entries.  A claim that is not in the dictionary is [None], so that
    [payload.get(k)] is the projection itself. *)
Record t := mk {
  sub : option string;
  exp : option Z;
  type : option string
}.

(** The empty dictionary, the only falsy one. *)
Definition empty : t := mk None None None.

(** [{"sub": s}] *)
Definition of_sub (s : string) : t := mk (Some s) None None.
End TokenPayload.

#[global] Instance TokenPayload_eq_dec : EqDecision TokenPayload.t.
Proof. solve_decision. Defined.

(** ** [app/utils/exceptions.py] *)

(** What a handler can raise: the [HTTPException] subclasses of the
    application, and the two exceptions of the database layer that reach the
    handlers of this file. *)
Inductive Exn :=
  | HTTPException (status_code : Z) (detail : string) (headers : list (string * string))
  | IntegrityError
  | MultipleResultsFound
  | InvalidRequestError.

Definition HTTP_400_BAD_REQUEST : Z := 400.
Definition HTTP_401_UNAUTHORIZED : Z := 401.
Definition HTTP_403_FORBIDDEN : Z := 403.
Definition HTTP_404_NOT_FOUND : Z := 404.
Definition HTTP_409_CONFLICT : Z := 409.
Definition HTTP_500_INTERNAL_SERVER_ERROR : Z := 500.

Definition NotFoundException (detail : string) : Exn :=
  HTTPException HTTP_404_NOT_FOUND detail [].
Definition UnauthorizedException (detail : string) : Exn :=
  HTTPException HTTP_401_UNAUTHORIZED detail [("WWW-Authenticate", "Bearer")].
Definition ForbiddenException (detail : string) : Exn :=
  HTTPException HTTP_403_FORBIDDEN detail [].
Definition BadRequestException (detail : string) : Exn :=
  HTTPException HTTP_400_BAD_REQUEST detail [].
Definition ConflictException (detail : string) : Exn :=
  HTTPException HTTP_409_CONFLICT detail [].

Inductive Result (A : Type) :=
  | Ok (a : A)
  | Raise (e : Exn).
Arguments Ok {A} a.
Arguments Raise {A} e.

(** The status code the transport answers with: an [HTTPException] carries its
    own, any other exception that leaves the handler is a server error. *)
Definition status_code_of {A} (success : Z) (r : Result A) : Z :=
  match r with
  | Ok _ => success
  | Raise (HTTPException c _ _) => c
  | Raise _ => HTTP_500_INTERNAL_SERVER_ERROR
  end.

Definition Unauthorized {A} (r : Result A) : Prop :=
  ∃ detail, r = Raise (UnauthorizedException detail).
Definition Forbidden {A} (r : Result A) : Prop :=
  ∃ detail, r = Raise (ForbiddenException detail).
Definition Conflict {A} (r : Result A) : Prop :=
  ∃ detail, r = Raise (ConflictException detail).

(** ** Python truthiness *)

(** The value of an optional string when it is truthy: [None] and the empty
    string are falsy. *)
Definition truthy_str (o : option string) : option string :=
  match o with
  | Some s => if String.eqb s "" then None else Some s
  | None => None
  end.

(** The value of an optional dictionary when it is truthy: [None] and [{}]
    are falsy. *)
Definition truthy_payload (o : option TokenPayload.t) : option TokenPayload.t :=
  match o with
  | Some p => if bool_decide (p = TokenPayload.empty) then None else Some p
  | None => None
  end.

(** ** [app/database.py]: the store, the session and the unit of work *)

(** The committed rows of the [users] table. *)
Abbreviation Table := (list User.t).

(** The constraints the store enforces on an inserted row: the primary key
    and the two [unique=True] columns. *)
Definition violates (u : User.t) (table : Table) : bool :=
  bool_decide (User.id u ∈ User.id <$> table)
  || bool_decide (User.username u ∈ User.username <$> table)
  || bool_decide (User.email u ∈ User.email <$> table).

(** The INSERTs of a flush, in order; [None] when the store rejects one. *)
Fixpoint flush (rows : list User.t) (table : Table) : option Table :=
  match rows with
  | [] => Some table
  | u :: rest => if violates u table then None else flush rest (table ++ [u])
  end.

(** The commit of another request's transaction, as this request sees it:
    its rows appear in the store when the store accepts them. *)
Definition land (rows : list User.t) (table : Table) : Table :=
  match flush rows table with
  | Some table' => table'
  | None => table
  end.

(** An [AsyncSession] ([autoflush=False]): the committed rows it reads, the
    objects added and not yet flushed, and the transactions of concurrent
    requests that will commit while this one is suspended, one entry per
    suspension point. *)
Record Session := mkSession {
  store : Table;
  pending : list User.t;
  others : list (list User.t)
}.

(** A coroutine over a session; the session survives an exception, so that
    the unit of work can roll it back. *)
Definition Db (A : Type) : Type := Session → Result A * Session.

Definition ret {A} (a : A) : Db A := λ s, (Ok a, s).
Definition raise {A} (e : Exn) : Db A := λ s, (Raise e, s).
Definition bind {A B} (m : Db A) (k : A → Db B) : Db B :=
  λ s, match m s with
       | (Ok a, s') => k a s'
       | (Raise e, s') => (Raise e, s')
       end.

Notation "'let*' x ':=' m 'in' k" := (bind m (λ x, k))
  (at level 10, x name, m at level 100, k at level 200).
Notation "m ';;' k" := (bind m (λ _, k))
  (at level 100, k at level 200, right associativity, only parsing).

(** [await]: the coroutine is suspended and the next concurrent transaction,
    if there is one, commits before it resumes. *)
Definition await (s : Session) : Session :=
  match others s with
  | [] => s
  | rows :: rest => mkSession (land rows (store s)) (pending s) rest
  end.

(** [await db.execute(select(User).where(P))] *)
Definition execute_select (P : User.t → Prop) `{∀ u, Decision (P u)} : Db (list User.t) :=
  λ s, let s := await s in (Ok (filter P (store s)), s).

(** [result.scalar_one_or_none()] *)
Definition scalar_one_or_none (result : list User.t) : Db (option User.t) :=
  match result with
  | [] => ret None
  | [u] => ret (Some u)
  | _ => raise MultipleResultsFound
  end.

(** [db.add(obj)] *)
Definition add (u : User.t) : Db unit :=
  λ s, (Ok tt, mkSession (store s) (pending s ++ [u]) (others s)).

(** [await db.commit()] *)
Definition commit : Db unit :=
  λ s, let s := await s in
       match flush (pending s) (store s) with
       | Some table => (Ok tt, mkSession table [] (others s))
       | None => (Raise IntegrityError, s)
       end.

(** [await session.rollback()] *)
Definition rollback (s : Session) : Session :=
  let s := await s in mkSession (store s) [] (others s).

(** [await db.refresh(obj)]: the row is read again by its primary key. *)
Definition refresh (u : User.t) : Db User.t :=
  λ s, let s := await s in
       match filter (λ r, User.id r = User.id u) (store s) with
       | [r] => (Ok r, s)
       | _ => (Raise InvalidRequestError, s)
       end.

(** [get_db]: the unit of work around a handler.  The session is opened on
    the current store; when the handler returns the session is committed,
    when it (or that commit) raises the session is rolled back and the
    exception is raised again.  [schedule] lists the concurrent commits. *)
Definition get_db {A} (schedule : list (list User.t)) (handler : Db A)
    (db : Table) : Result A * Session :=
  let session := mkSession db [] schedule in
  match handler session with
  | (Ok a, s) =>
      match commit s with
      | (Ok _, s') => (Ok a, s')
      | (Raise e, s') => (Raise e, rollback s')
      end
  | (Raise e, s) => (Raise e, rollback s)
  end.

(** The schema's invariant on the table: the primary key and both unique
    columns have no duplicate, and no identifier is empty (identifiers are
    only ever produced by [str(uuid.uuid4())]). *)
Definition db_ok (table : Table) : Prop :=
  NoDup (User.id <$> table)
  ∧ NoDup (User.username <$> table)
  ∧ NoDup (User.email <$> table)
  ∧ Forall (λ u, User.id u ≠ "") table.

#[global] Instance db_ok_dec table : Decision (db_ok table).
Proof. unfold db_ok. apply _. Defined.

(** ** The collaborators of the handlers *)

(** [app.utils.security], as the routers import it.  The module is not in the
    source tree: the handlers are embedded over any implementation of it.
    Reading the clock and drawing a salt happen inside these functions. *)
Class Security := {
  verify_password : string → string → bool;
  get_password_hash : string → string;
  create_access_token : TokenPayload.t → string;
  create_refresh_token : TokenPayload.t → string;
  decode_token : string → option TokenPayload.t
}.

(** Modelled from the spec: [verify_token_type] of [app.utils.security], which
    is not in the source tree.  "[check_type(claims, expected) -> bool]:
    confirms the type claim matches an expected tag." *)
Definition verify_token_type (payload : TokenPayload.t) (token_type : string) : bool :=
  bool_decide (TokenPayload.type payload = Some token_type).

(** The standard library's [uuid.UUID(s)]: [true] when it returns, [false]
    when it raises [ValueError]. *)
Class Uuid := { UUID : string → bool }.

(** ** [app/dependencies.py] *)

Section Dependencies.
Context `{Security} `{Uuid}.

(** [token = authorization.replace("Bearer ", "")] *)
Definition bearer_token (authorization : string) : string :=
  PyStr.replace authorization "Bearer " "".

(** [get_current_user] from the decoded payload on: type check, subject,
    user resolution. *)
Definition principal_of (payload : option TokenPayload.t) : Db User.t :=
  match truthy_payload payload with
  | None => raise (UnauthorizedException "Invalid or expired token")
  | Some payload =>
      if negb (verify_token_type payload "access")
      then raise (UnauthorizedException "Invalid token type")
      else
        match truthy_str (TokenPayload.sub payload) with
        | None => raise (UnauthorizedException "Invalid token payload")
        | Some user_id =>
            if negb (UUID user_id)
            then raise (UnauthorizedException "Invalid user ID format")
            else
              let* result := execute_select (λ u, User.id u = user_id) in
              let* user := scalar_one_or_none result in
              match user with
              | None => raise (UnauthorizedException "User not found")
              | Some user =>
                  if negb (User.is_active user)
                  then raise (UnauthorizedException "User account is deactivated")
                  else ret user
              end
        end
  end.

Definition get_current_user (authorization : option string) : Db User.t :=
  match truthy_str authorization with
  | None => raise (UnauthorizedException "Missing or invalid authorization header")
  | Some authorization =>
      if negb (PyStr.startswith authorization "Bearer ")
      then raise (UnauthorizedException "Missing or invalid authorization header")
      else
        let token := bearer_token authorization in
        let payload := decode_token token in
        principal_of payload
  end.

Definition get_current_active_user (current_user : User.t) : Db User.t :=
  ret current_user.

Definition require_admin (current_user : User.t) : Db User.t :=
  if negb (bool_decide (User.role current_user = ADMIN))
  then raise (ForbiddenException "Admin access required")
  else ret current_user.

(** [Depends(require_admin)]: FastAPI resolves [get_current_user] first and
    hands its result to [require_admin]. *)
Definition depends_require_admin (authorization : option string) : Db User.t :=
  let* current_user := get_current_user authorization in
  require_admin current_user.

End Dependencies.

(** ** [app/routers/auth.py] *)

Section AuthRouter.
Context `{Security} `{Uuid}.

(** [POST /auth/register].  [new_id] is the [str(uuid.uuid4())] and [now]
    the [datetime.utcnow()] that the column defaults draw for the row. *)
Definition register (new_id : string) (now : Z) (user_data : UserCreate.t) : Db User.t :=
  (* Check if username already exists *)
  let* result := execute_select (λ u, User.username u = UserCreate.username user_data) in
  let* existing := scalar_one_or_none result in
  match existing with
  | Some _ => raise (ConflictException "Username already registered")
  | None =>
      (* Check if email already exists *)
      let* result := execute_select (λ u, User.email u = UserCreate.email user_data) in
      let* existing := scalar_one_or_none result in
      match existing with
      | Some _ => raise (ConflictException "Email already registered")
      | None =>
          (* Create new user *)
          let hashed_password := get_password_hash (UserCreate.password user_data) in
          let new_user := {|
            User.id := new_id;
            User.email := UserCreate.email user_data;
            User.username := UserCreate.username user_data;
            User.hashed_password := hashed_password;
            User.first_name := UserCreate.first_name user_data;
            User.last_name := UserCreate.last_name user_data;
            User.role := UserCreate.role user_data;
            User.is_active := true;
            User.phone_number := UserCreate.phone_number user_data;
            User.created_at := now;
            User.updated_at := now
          |} in
          add new_user ;;
          commit ;;
          let* new_user := refresh new_user in
          ret new_user
      end
  end.

(** [POST /auth/login] *)
Definition login (credentials : UserLogin.t) : Db Token.t :=
  (* Find user by username *)
  let* result := execute_select (λ u, User.username u = UserLogin.username credentials) in
  let* user := scalar_one_or_none result in
  match user with
  | None => raise (UnauthorizedException "Incorrect username or password")
  | Some user =>
      if negb (verify_password (UserLogin.password credentials) (User.hashed_password user))
      then raise (UnauthorizedException "Incorrect username or password")
      else if negb (User.is_active user)
      then raise (UnauthorizedException "User account is deactivated")
      else
        (* Create tokens *)
        let access_token := create_access_token (TokenPayload.of_sub (User.id user)) in
        let refresh_token := create_refresh_token (TokenPayload.of_sub (User.id user)) in
        ret (Token.mk access_token refresh_token "bearer")
  end.

(** [POST /auth/refresh] *)
Definition refresh_access_token (refresh_data : RefreshTokenRequest.t) : Db Token.t :=
  let payload := decode_token (RefreshTokenRequest.refresh_token refresh_data) in
  match truthy_payload payload with
  | None => raise (UnauthorizedException "Invalid or expired refresh token")
  | Some payload =>
      if negb (verify_token_type payload "refresh")
      then raise (UnauthorizedException "Invalid token type")
      else
        match truthy_str (TokenPayload.sub payload) with
        | None => raise (UnauthorizedException "Invalid token payload")
        | Some user_id =>
            (* Verify user still exists and is active *)
            let* result := execute_select (λ u, User.id u = user_id) in
            let* user := scalar_one_or_none result in
            match user with
            | None => raise (UnauthorizedException "User not found or deactivated")
            | Some user =>
                if negb (User.is_active user)
                then raise (UnauthorizedException "User not found or deactivated")
                else
                  (* Create new tokens *)
                  let access_token := create_access_token (TokenPayload.of_sub (User.id user)) in
                  let refresh_token := create_refresh_token (TokenPayload.of_sub (User.id user)) in
                  ret (Token.mk access_token refresh_token "bearer")
            end
        end
  end.

(** [GET /auth/me] *)
Definition get_current_user_info (authorization : option string) : Db User.t :=
  let* current_user := get_current_user authorization in
  ret current_user.

End AuthRouter.

(** ** [app/config.py] *)

Module settings.
Definition SECRET_KEY : string := "your-secret-key-here-change-in-production".
Definition ALGORITHM : string := "HS256".
Definition ACCESS_TOKEN_EXPIRE_MINUTES : Z := 480.
Definition REFRESH_TOKEN_EXPIRE_DAYS : Z := 30.
Definition DEFAULT_PAGE_SIZE : Z := 20.
Definition MAX_PAGE_SIZE : Z := 100.
End settings.

(** ** A model of [app.utils.security] *)

(** The primitives the password hasher and the token codec are built on: a
    keyed MAC (key, then message), the slow salted hash (salt, then
    plaintext) and the length of the salts the hasher draws. *)
Class Crypto := {
  mac : string → string → string;
  kdf : string → string → string;
  salt_length : nat
}.

Module SecurityModel.

(** Modelled from the spec: the wire form of a string inside a token, which
    the spec leaves open ("compact").  Every character is escaped and the
    string is closed by a dot, so that what follows it can be told apart. *)
Fixpoint quote (s : string) : string :=
  match s with
  | EmptyString => "."
  | String c s' => String "+"%char (String c (quote s'))
  end.

(** Modelled from the spec: the inverse of [quote]; it returns the string
    and what follows it, and [None] on a malformed encoding. *)
Fixpoint unquote (s : string) : option (string * string) :=
  match s with
  | EmptyString => None
  | String c rest =>
      if Ascii.eqb c "."%char
      then Some (EmptyString, rest)
      else if Ascii.eqb c "+"%char
      then match rest with
           | EmptyString => None
           | String d rest' =>
               match unquote rest' with
               | Some (v, r) => Some (String d v, r)
               | None => None
               end
           end
      else None
  end.

(** Modelled from the spec: an entry of the claim set that may be missing. *)
Definition quote_opt (o : option string) : string :=
  match o with
  | None => "-"
  | Some s => String "="%char (quote s)
  end.

(** Modelled from the spec: the inverse of [quote_opt]. *)
Definition unquote_opt (s : string) : option (option string * string) :=
  match s with
  | EmptyString => None
  | String c rest =>
      if Ascii.eqb c "-"%char
      then Some (None, rest)
      else if Ascii.eqb c "="%char
      then match unquote rest with
           | Some (v, r) => Some (Some v, r)
           | None => None
           end
      else None
  end.

(** Modelled from the spec: the [exp] claim is a unix timestamp, written in
    decimal. *)
Definition Z_to_string (z : Z) : string := NilEmpty.string_of_int (Z.to_int z).
Definition Z_of_string (s : string) : option Z :=
  match NilEmpty.int_of_string s with
  | Some d => Some (Z.of_int d)
  | None => None
  end.

(** Modelled from the spec: the encoding of the claim set
    {subject, expiry, type}. *)
Definition serialize (claims : TokenPayload.t) : string :=
  quote_opt (TokenPayload.sub claims)
  +:+ quote_opt (Z_to_string <$> TokenPayload.exp claims)
  +:+ quote_opt (TokenPayload.type claims).

(** Modelled from the spec: the inverse of [serialize]; [None] on a
    malformed encoding. *)
Definition deserialize (body : string) : option TokenPayload.t :=
  match unquote_opt body with
  | Some (sub, r1) =>
      match unquote_opt r1 with
      | Some (exp, r2) =>
          match unquote_opt r2 with
          | Some (type, EmptyString) =>
              match exp with
              | None => Some (TokenPayload.mk sub None type)
              | Some e =>
                  match Z_of_string e with
                  | Some z => Some (TokenPayload.mk sub (Some z) type)
                  | None => None
                  end
              end
          | _ => None
          end
      | None => None
      end
  | None => None
  end.

Section Model.
Context `{Crypto}.

(** *** Password hasher *)

(** Modelled from the spec: the digest of [plaintext] under [salt]; the
    salt is embedded in the digest, in front of the hash. *)
Definition hash_with (salt plaintext : string) : string :=
  salt +:+ kdf salt plaintext.

(** Modelled from the spec: [get_password_hash] of [app.utils.security].
    "[hash(plaintext) -> digest] produces a salted, one-way digest ...
    (salt is random per call)".  [salt] is the salt drawn by the call. *)
Definition get_password_hash (salt : string) (plaintext : string) : string :=
  hash_with salt plaintext.

(** Modelled from the spec: [verify_password] of [app.utils.security].
    "[verify(plaintext, digest) -> bool] returns true iff the plaintext,
    when hashed with the digest's embedded salt and parameters, equals
    the digest." *)
Definition verify_password (plaintext digest : string) : bool :=
  String.eqb (hash_with (substring 0 salt_length digest) plaintext) digest.

(** *** Token codec *)

(** Modelled from the spec: a token is the encoded claim set followed by
    its MAC under the process secret. *)
Definition sign (claims : TokenPayload.t) : string :=
  let body := serialize claims in
  quote body +:+ mac settings.SECRET_KEY body.

(** Modelled from the spec: "[issue(subject, type, ttl) -> token]: encodes
    a claim set {subject, expiry = now + ttl, type} and signs it with the
    process secret using a symmetric MAC scheme". *)
Definition issue (now : Z) (subject type : string) (ttl : Z) : string :=
  sign (TokenPayload.mk (Some subject) (Some (now + ttl)) (Some type)).

(** Modelled from the spec: the same for a [data] dictionary, as the
    routers call it. *)
Definition create_token (now : Z) (data : TokenPayload.t) (type : string) (ttl : Z) : string :=
  sign (TokenPayload.mk (TokenPayload.sub data) (Some (now + ttl)) (Some type)).

(** Modelled from the spec: [create_access_token] of [app.utils.security].
    "Access tokens use a short TTL (on the order of hours)". *)
Definition create_access_token (now : Z) (data : TokenPayload.t) : string :=
  create_token now data "access" (settings.ACCESS_TOKEN_EXPIRE_MINUTES * 60).

(** Modelled from the spec: [create_refresh_token] of
    [app.utils.security].  "refresh tokens use a long TTL (on the order of
    weeks)". *)
Definition create_refresh_token (now : Z) (data : TokenPayload.t) : string :=
  create_token now data "refresh" (settings.REFRESH_TOKEN_EXPIRE_DAYS * 86400).

(** Why a token does not decode. *)
Inductive Invalid := Malformed | SignatureMismatch | Expired | MissingClaim.

(** Modelled from the spec: the checks of [decode], in order.  "verifies
    signature and expiry; fails ... for: malformed encoding, signature
    mismatch, expired timestamp, missing required claim".  A token is
    expired "once current time exceeds" its expiry. *)
Definition check_token (now : Z) (token : string) : Invalid + TokenPayload.t :=
  match unquote token with
  | None => inl Malformed
  | Some (body, signature) =>
      if negb (String.eqb signature (mac settings.SECRET_KEY body))
      then inl SignatureMismatch
      else
        match deserialize body with
        | None => inl Malformed
        | Some claims =>
            match TokenPayload.sub claims, TokenPayload.exp claims, TokenPayload.type claims with
            | Some _, Some exp, Some _ =>
                if (exp <? now)%Z then inl Expired else inr claims
            | _, _, _ => inl MissingClaim
            end
        end
  end.

(** Modelled from the spec: [decode_token] of [app.utils.security].
    "[decode(token) -> claims | failure] ... returning an explicit
    invalid result"; the callers test the result for truth, so the
    invalid result is [None]. *)
Definition decode_token (now : Z) (token : string) : option TokenPayload.t :=
  match check_token now token with
  | inl _ => None
  | inr claims => Some claims
  end.

End Model.

End SecurityModel.

(** The model as an implementation of the interface of the routers, for a
    request served at time [now] whose hasher draws [salt]. *)
Definition security_model `{Crypto} (now : Z) (salt : string) : Security := {|
  verify_password := SecurityModel.verify_password;
  get_password_hash := SecurityModel.get_password_hash salt;
  create_access_token := SecurityModel.create_access_token now;
  create_refresh_token := SecurityModel.create_refresh_token now;
  decode_token := SecurityModel.decode_token now
|}.

(** ** Sample collaborators

    Implementations of the interfaces above on which the statements below can
    be evaluated. *)

Module Sample.

Definition is_hex (c : ascii) : bool :=
  let n := nat_of_ascii c in
  ((48 <=? n) && (n <=? 57) || (97 <=? n) && (n <=? 102) || (65 <=? n) && (n <=? 70))%nat.

(** The canonical 8-4-4-4-12 form of a UUID, from position [i] on. *)
Fixpoint canonical_from (i : nat) (s : string) : bool :=
  match s with
  | EmptyString => Nat.eqb i 36
  | String c s' =>
      (if bool_decide (i ∈ [8; 13; 18; 23]%nat) then Ascii.eqb c "-"%char else is_hex c)
      && canonical_from (S i) s'
  end.

Definition uuid : Uuid := {| UUID := canonical_from 0 |}.

(** A keyed checksum and a salted one; neither is cryptographic. *)
Definition crypto : Crypto := {|
  mac key message := "mac(" +:+ key +:+ "," +:+ message +:+ ")";
  kdf salt plaintext := "kdf(" +:+ salt +:+ "," +:+ plaintext +:+ ")";
  salt_length := 4
|}.

Definition alice_id : string := "123e4567-e89b-12d3-a456-426614174000".
Definition bob_id : string := "00000000-0000-4000-8000-000000000001".

Definition alice : User.t := {|
  User.id := alice_id;
  User.email := "alice@x.com";
  User.username := "alice";
  User.hashed_password :=
    @SecurityModel.get_password_hash crypto "salt" "secret123";
  User.first_name := "Alice";
  User.last_name := "A";
  User.role := STAFF;
  User.is_active := true;
  User.phone_number := None;
  User.created_at := 1700000000;
  User.updated_at := 1700000000
|}.

Definition root : User.t := {|
  User.id := bob_id;
  User.email := "root@x.com";
  User.username := "root";
  User.hashed_password :=
    @SecurityModel.get_password_hash crypto "pepr" "hunter2hunter2";
  User.first_name := "Bob";
  User.last_name := "B";
  User.role := ADMIN;
  User.is_active := true;
  User.phone_number := Some "555";
  User.created_at := 1700000000;
  User.updated_at := 1700000000
|}.

Definition db : Table := [alice; root].

Definition now : Z := 1700000100.

Definition security : Security := @security_model crypto now "salt".

Definition alice_data : UserCreate.t := {|
  UserCreate.email := "alice@x.com";
  UserCreate.username := "alice";
  UserCreate.first_name := "Alice";
  UserCreate.last_name := "A";
  UserCreate.phone_number := None;
  UserCreate.role := STAFF;
  UserCreate.password := "secret123"
|}.

Definition credentials : UserLogin.t := {|
  UserLogin.username := "alice";
  UserLogin.password := "secret123"
|}.

(** The token pair a login of [alice] at [now] returns. *)
Definition alice_tokens : Token.t := {|
  Token.access_token :=
    @SecurityModel.create_access_token crypto now (TokenPayload.of_sub alice_id);
  Token.refresh_token :=
    @SecurityModel.create_refresh_token crypto now (TokenPayload.of_sub alice_id);
  Token.token_type := "bearer"
|}.

(** A second registration under the same username, with another email. *)
Definition alice2_data : UserCreate.t := {|
  UserCreate.email := "alice@y.org";
  UserCreate.username := "alice";
  UserCreate.first_name := "Alicia";
  UserCreate.last_name := "A";
  UserCreate.phone_number := None;
  UserCreate.role := STAFF;
  UserCreate.password := "password1"
|}.

(** The row that second registration commits. *)
Definition racing_row : User.t := {|
  User.id := bob_id;
  User.email := "alice@y.org";
  User.username := "alice";
  User.hashed_password :=
    @SecurityModel.get_password_hash crypto "pepr" "password1";
  User.first_name := "Alicia";
  User.last_name := "A";
  User.role := STAFF;
  User.is_active := true;
  User.phone_number := None;
  User.created_at := now;
  User.updated_at := now
|}.

End Sample.

(** ** [app/utils/pagination.py] *)

Module PaginationParams.

Record t := mk { page : Z; limit : Z }.

(** The field defaults: [page = 1], [limit = settings.DEFAULT_PAGE_SIZE]. *)
Definition default : t := mk 1 settings.DEFAULT_PAGE_SIZE.

(** [get_offset]: [(self.page - 1) * self.limit] *)
Definition get_offset (self : t) : Z := (page self - 1) * limit self.

(** [validate_limit] *)
Definition validate_limit (self : t) : Z :=
  if limit self >? settings.MAX_PAGE_SIZE
  then settings.MAX_PAGE_SIZE
  else limit self.

End PaginationParams.

Module PaginatedResponse.

Record t (T : Type) := mk {
  items : list T;
  total : Z;
  page : Z;
  limit : Z;
  total_pages : Z
}.
Arguments mk {T} _ _ _ _ _.
Arguments items {T} _.
Arguments total {T} _.
Arguments page {T} _.
Arguments limit {T} _.
Arguments total_pages {T} _.

(** [PaginatedResponse.create].  [//] on Python integers rounds towards minus
    infinity, as [Z.div] does, and raises [ZeroDivisionError] for a zero
    divisor: that exception is the [None] here. *)
Definition create {T} (items : list T) (total page limit : Z) : option (t T) :=
  if limit =? 0
  then None
  else
    let total_pages := (total + limit - 1) / limit in
    Some (mk items total page limit total_pages).

End PaginatedResponse.

(** ** [app/models/product_category.py] and [app/schemas/product_category.py] *)

Module ProductCategory.
(** A row of the [product_categories] table.  [id] is the primary key;
    [name] and [slug] carry a unique constraint; only [description] is
    nullable. *)
Record t := mk {
  id : string;
  name : string;
  slug : string;
  description : option string;
  is_active : bool;
  sort_order : Z;
  created_at : Z;
  updated_at : Z
}.
End ProductCategory.

#[global] Instance ProductCategory_eq_dec : EqDecision ProductCategory.t.
Proof. solve_decision. Defined.

Module ProductCategoryCreate.
Record t := mk {
  name : string;
  slug : string;
  description : option string;
  sort_order : Z
}.
End ProductCategoryCreate.

Module ProductCategoryUpdate.
(** Every field is [Optional] with default [None]: a field of the request
    body is absent ([None]), or present with [null] ([Some None]) or with a
    value.  [model_dump(exclude_unset=True)] keeps the fields that are
    present. *)
Record t := mk {
  name : option (option string);
  slug : option (option string);
  description : option (option string);
  sort_order : option (option Z);
  is_active : option (option bool)
}.
End ProductCategoryUpdate.

(** ** [app/routers/categories.py] *)

Module Categories.

(** The attributes of a [ProductCategory] instance in memory: [setattr] can
    put [None] in any of them, nullable column or not. *)
Module Entity.
Record t := mk {
  id : string;
  name : option string;
  slug : option string;
  description : option string;
  is_active : option bool;
  sort_order : option Z;
  created_at : Z;
  updated_at : Z
}.
End Entity.

#[global] Instance Entity_eq_dec : EqDecision Entity.t.
Proof. solve_decision. Defined.

(** The instance the ORM builds for a row it has read. *)
Definition load (row : ProductCategory.t) : Entity.t := {|
  Entity.id := ProductCategory.id row;
  Entity.name := Some (ProductCategory.name row);
  Entity.slug := Some (ProductCategory.slug row);
  Entity.description := ProductCategory.description row;
  Entity.is_active := Some (ProductCategory.is_active row);
  Entity.sort_order := Some (ProductCategory.sort_order row);
  Entity.created_at := ProductCategory.created_at row;
  Entity.updated_at := ProductCategory.updated_at row
|}.

(** The row an instance is written as; [None] when a [nullable=False] column
    would receive NULL. *)
Definition row_of (e : Entity.t) : option ProductCategory.t :=
  match Entity.name e, Entity.slug e, Entity.is_active e, Entity.sort_order e with
  | Some name, Some slug, Some is_active, Some sort_order =>
      Some {|
        ProductCategory.id := Entity.id e;
        ProductCategory.name := name;
        ProductCategory.slug := slug;
        ProductCategory.description := Entity.description e;
        ProductCategory.is_active := is_active;
        ProductCategory.sort_order := sort_order;
        ProductCategory.created_at := Entity.created_at e;
        ProductCategory.updated_at := Entity.updated_at e
      |}
  | _, _, _, _ => None
  end.

(** [onupdate=datetime.utcnow] *)
Definition touch (now : Z) (row : ProductCategory.t) : ProductCategory.t := {|
  ProductCategory.id := ProductCategory.id row;
  ProductCategory.name := ProductCategory.name row;
  ProductCategory.slug := ProductCategory.slug row;
  ProductCategory.description := ProductCategory.description row;
  ProductCategory.is_active := ProductCategory.is_active row;
  ProductCategory.sort_order := ProductCategory.sort_order row;
  ProductCategory.created_at := ProductCategory.created_at row;
  ProductCategory.updated_at := now
|}.

(** The committed rows of the table. *)
Abbreviation Table := (list ProductCategory.t).

(** The two [unique=True] columns of a row against the rows of a table. *)
Definition clashes (row : ProductCategory.t) (table : Table) : bool :=
  bool_decide (ProductCategory.name row ∈ ProductCategory.name <$> table)
  || bool_decide (ProductCategory.slug row ∈ ProductCategory.slug <$> table).

(** The table after [UPDATE ... WHERE id = cid] has written [row]. *)
Definition replaced (cid : string) (row : ProductCategory.t) (table : Table) : Table :=
  (λ r, if bool_decide (ProductCategory.id r = cid) then row else r) <$> table.

(** The UPDATE of a flush for an instance that was loaded as [old]: none is
    issued when no attribute differs from what was loaded; otherwise the
    changed row, stamped by [onupdate], takes the place of the old one,
    unless a NOT NULL or a unique constraint refuses it ([None]). *)
Definition flush_update (now : Z) (old : ProductCategory.t) (e : Entity.t)
    (table : Table) : option Table :=
  if bool_decide (e = load old)
  then Some table
  else
    match row_of e with
    | None => None
    | Some row =>
        let row := touch now row in
        let rest := filter (λ r, ProductCategory.id r ≠ ProductCategory.id old) table in
        if clashes row rest
        then None
        else Some (replaced (ProductCategory.id old) row table)
    end.

Fixpoint flush_updates (now : Z) (dirty : list (ProductCategory.t * Entity.t))
    (table : Table) : option Table :=
  match dirty with
  | [] => Some table
  | (old, e) :: rest =>
      match flush_update now old e table with
      | Some table' => flush_updates now rest table'
      | None => None
      end
  end.

(** The INSERTs of a flush, in order; [None] when the primary key or a unique
    constraint refuses one. *)
Fixpoint flush_inserts (rows : list ProductCategory.t) (table : Table) : option Table :=
  match rows with
  | [] => Some table
  | row :: rest =>
      if bool_decide (ProductCategory.id row ∈ ProductCategory.id <$> table)
         || clashes row table
      then None
      else flush_inserts rest (table ++ [row])
  end.

(** The session of a request served alone: the committed rows, the objects
    added, and the loaded instances that were assigned to, each with the row
    it was loaded from. *)
Record Session := mkSession {
  store : Table;
  pending : list ProductCategory.t;
  dirty : list (ProductCategory.t * Entity.t)
}.

Definition Db (A : Type) : Type := Session → Result A * Session.

Definition ret {A} (a : A) : Db A := λ s, (Ok a, s).
Definition raise {A} (e : Exn) : Db A := λ s, (Raise e, s).
Definition bind {A B} (m : Db A) (k : A → Db B) : Db B :=
  λ s, match m s with
       | (Ok a, s') => k a s'
       | (Raise e, s') => (Raise e, s')
       end.

Declare Scope categories_scope.
Notation "'let*' x ':=' m 'in' k" := (bind m (λ x, k))
  (at level 10, x name, m at level 100, k at level 200) : categories_scope.
Notation "m ';;' k" := (bind m (λ _, k))
  (at level 100, k at level 200, right associativity, only parsing) : categories_scope.
Local Open Scope categories_scope.

(** [await db.execute(select(ProductCategory).where(P))] *)
Definition execute_select (P : ProductCategory.t → Prop) `{∀ r, Decision (P r)} :
    Db (list ProductCategory.t) :=
  λ s, (Ok (filter P (store s)), s).

(** [result.scalar_one_or_none()] *)
Definition scalar_one_or_none (result : list ProductCategory.t) :
    Db (option ProductCategory.t) :=
  match result with
  | [] => ret None
  | [row] => ret (Some row)
  | _ => raise MultipleResultsFound
  end.

(** [db.add(obj)] *)
Definition add (row : ProductCategory.t) : Db unit :=
  λ s, (Ok tt, mkSession (store s) (pending s ++ [row]) (dirty s)).

(** An assignment to attributes of a loaded instance: the session remembers
    the instance as modified. *)
Definition assign (old : ProductCategory.t) (e : Entity.t) : Db unit :=
  λ s, (Ok tt, mkSession (store s) (pending s) (dirty s ++ [(old, e)])).

(** [await db.commit()]: the flush issues the UPDATEs, then the INSERTs. *)
Definition commit (now : Z) : Db unit :=
  λ s, match flush_updates now (dirty s) (store s) with
       | Some table =>
           match flush_inserts (pending s) table with
           | Some table' => (Ok tt, mkSession table' [] [])
           | None => (Raise IntegrityError, s)
           end
       | None => (Raise IntegrityError, s)
       end.

(** [await session.rollback()] *)
Definition rollback (s : Session) : Session := mkSession (store s) [] [].

(** [await db.refresh(obj)]: the row is read again by its primary key. *)
Definition refresh (id : string) : Db ProductCategory.t :=
  λ s, match filter (λ r, ProductCategory.id r = id) (store s) with
       | [row] => (Ok row, s)
       | _ => (Raise InvalidRequestError, s)
       end.

(** [get_db] of [app/database.py] around a handler of this router. *)
Definition get_db {A} (now : Z) (handler : Db A) (db : Table) : Result A * Session :=
  let session := mkSession db [] [] in
  match handler session with
  | (Ok a, s) =>
      match commit now s with
      | (Ok _, s') => (Ok a, s')
      | (Raise e, s') => (Raise e, rollback s')
      end
  | (Raise e, s) => (Raise e, rollback s)
  end.

(** [ORDER BY sort_order, name], names compared byte by byte as the SQLite
    store of [settings.DATABASE_URL] does. *)
Definition by_sort_order_name (a b : ProductCategory.t) : Prop :=
  ProductCategory.sort_order a < ProductCategory.sort_order b
  ∨ (ProductCategory.sort_order a = ProductCategory.sort_order b
     ∧ String.leb (ProductCategory.name a) (ProductCategory.name b) = true).

#[global] Instance by_sort_order_name_dec a b : Decision (by_sort_order_name a b).
Proof. unfold by_sort_order_name. apply _. Defined.

(** [GET /categories/] *)
Definition list_categories : Db (list ProductCategory.t) :=
  let* result := execute_select (λ r, ProductCategory.is_active r = true) in
  let categories := merge_sort by_sort_order_name result in
  ret categories.

(** [GET /categories/{category_id}] *)
Definition get_category (category_id : string) : Db ProductCategory.t :=
  let* result := execute_select (λ r, ProductCategory.id r = category_id) in
  let* category := scalar_one_or_none result in
  match category with
  | None => raise (NotFoundException ("Category with ID " +:+ category_id +:+ " not found"))
  | Some category => ret category
  end.

(** [POST /categories/].  [new_id] is the [str(uuid.uuid4())] and [now] the
    [datetime.utcnow()] the column defaults draw for the row. *)
Definition create_category (new_id : string) (now : Z)
    (category_data : ProductCategoryCreate.t) : Db ProductCategory.t :=
  (* Check if name or slug already exists *)
  let* existing := execute_select
    (λ r, ProductCategory.name r = ProductCategoryCreate.name category_data
          ∨ ProductCategory.slug r = ProductCategoryCreate.slug category_data) in
  let* existing := scalar_one_or_none existing in
  match existing with
  | Some _ => raise (ConflictException "Category with this name or slug already exists")
  | None =>
      let new_category := {|
        ProductCategory.id := new_id;
        ProductCategory.name := ProductCategoryCreate.name category_data;
        ProductCategory.slug := ProductCategoryCreate.slug category_data;
        ProductCategory.description := ProductCategoryCreate.description category_data;
        ProductCategory.is_active := true;
        ProductCategory.sort_order := ProductCategoryCreate.sort_order category_data;
        ProductCategory.created_at := now;
        ProductCategory.updated_at := now
      |} in
      add new_category ;;
      commit now ;;
      let* new_category := refresh (ProductCategory.id new_category) in
      ret new_category
  end.

(** [for field, value in update_data.items(): setattr(category, field, value)] *)
Definition setattrs (category : Entity.t) (update_data : ProductCategoryUpdate.t) :
    Entity.t := {|
  Entity.id := Entity.id category;
  Entity.name := default (Entity.name category) (ProductCategoryUpdate.name update_data);
  Entity.slug := default (Entity.slug category) (ProductCategoryUpdate.slug update_data);
  Entity.description :=
    default (Entity.description category) (ProductCategoryUpdate.description update_data);
  Entity.is_active :=
    default (Entity.is_active category) (ProductCategoryUpdate.is_active update_data);
  Entity.sort_order :=
    default (Entity.sort_order category) (ProductCategoryUpdate.sort_order update_data);
  Entity.created_at := Entity.created_at category;
  Entity.updated_at := Entity.updated_at category
|}.

(** [PUT /categories/{category_id}] *)
Definition update_category (now : Z) (category_id : string)
    (category_data : ProductCategoryUpdate.t) : Db ProductCategory.t :=
  let* result := execute_select (λ r, ProductCategory.id r = category_id) in
  let* category := scalar_one_or_none result in
  match category with
  | None => raise (NotFoundException ("Category with ID " +:+ category_id +:+ " not found"))
  | Some category =>
      (* Update fields *)
      let update_data := category_data in
      assign category (setattrs (load category) update_data) ;;
      commit now ;;
      let* category := refresh (ProductCategory.id category) in
      ret category
  end.

(** [DELETE /categories/{category_id}] *)
Definition delete_category (now : Z) (category_id : string) : Db unit :=
  let* result := execute_select (λ r, ProductCategory.id r = category_id) in
  let* category := scalar_one_or_none result in
  match category with
  | None => raise (NotFoundException ("Category with ID " +:+ category_id +:+ " not found"))
  | Some category =>
      let e := load category in
      assign category {|
        Entity.id := Entity.id e;
        Entity.name := Entity.name e;
        Entity.slug := Entity.slug e;
        Entity.description := Entity.description e;
        Entity.is_active := Some false;
        Entity.sort_order := Entity.sort_order e;
        Entity.created_at := Entity.created_at e;
        Entity.updated_at := Entity.updated_at e
      |} ;;
      commit now ;;
      ret tt
  end.

(** The schema's invariant on the table: the primary key and both unique
    columns have no duplicate. *)
Definition table_ok (table : Table) : Prop :=
  NoDup (ProductCategory.id <$> table)
  ∧ NoDup (ProductCategory.name <$> table)
  ∧ NoDup (ProductCategory.slug <$> table).

#[global] Instance table_ok_dec table : Decision (table_ok table).
Proof. unfold table_ok. apply _. Defined.

End Categories.

(** ** [app/models/maintenance_record.py] *)

Inductive ServiceType := STRINGING | REPAIR | OTHER.

#[global] Instance ServiceType_eq_dec : EqDecision ServiceType.
Proof. solve_decision. Defined.

Module MaintenanceRecord.
(** A row of the [maintenance_records] table.  A [DateTime] is its number of
    microseconds since the epoch, a [Date] its number of days, a
    [Numeric(_, 2)] its number of hundredths. *)
Record t := mk {
  id : string;
  client_racket_id : string;
  performed_by_user_id : string;
  service_date : Z;
  service_type : ServiceType;
  main_string_id : option string;
  cross_string_id : option string;
  main_tension_kg : option Z;
  cross_tension_kg : option Z;
  string_pattern : option string;
  base_grip_id : option string;
  overgrip_id : option string;
  number_of_overgrips : Z;
  dampener_id : option string;
  dampener_position : option string;
  service_cost : Z;
  duration_minutes : option Z;
  notes : option string;
  is_warranty_service : bool;
  next_service_due_date : option Z;
  created_at : Z;
  updated_at : Z
}.
End MaintenanceRecord.

(** ** [app/schemas/maintenance_record.py] *)

Module MaintenanceRecordUpdate.
(** The body of an update.  Every field is optional and [model_dump] is
    called with [exclude_unset]: a field is absent ([None]), or present with
    [null] ([Some None]) or with a value. *)
Record t := mk {
  service_type : option (option ServiceType);
  service_cost : option (option Z);
  main_string_id : option (option string);
  cross_string_id : option (option string);
  main_tension_kg : option (option Z);
  cross_tension_kg : option (option Z);
  string_pattern : option (option string);
  base_grip_id : option (option string);
  overgrip_id : option (option string);
  number_of_overgrips : option (option Z);
  dampener_id : option (option string);
  dampener_position : option (option string);
  duration_minutes : option (option Z);
  notes : option (option string);
  is_warranty_service : option (option bool);
  next_service_due_date : option (option Z)
}.
End MaintenanceRecordUpdate.

(** ** [app/routers/maintenance.py] *)

Module Maintenance.

Abbreviation Table := (list MaintenanceRecord.t).

Definition MICROSECONDS_PER_DAY : Z := 86400000000.

(** [datetime.combine(d, datetime.min.time())] and
    [datetime.combine(d, datetime.max.time())]: the first and the last
    microsecond of the day. *)
Definition combine_min (d : Z) : Z := d * MICROSECONDS_PER_DAY.
Definition combine_max (d : Z) : Z := d * MICROSECONDS_PER_DAY + (MICROSECONDS_PER_DAY - 1).

(** The WHERE clause the handler builds: a filter is added for a racket
    identifier that is given and not empty, for a service type that is given,
    and for each bound of the date range that is given. *)
Definition matches (client_racket_id : option string) (service_type : option ServiceType)
    (date_from date_to : option Z) (r : MaintenanceRecord.t) : Prop :=
  match truthy_str client_racket_id with
  | Some racket => MaintenanceRecord.client_racket_id r = racket
  | None => True
  end
  ∧ match service_type with
    | Some type => MaintenanceRecord.service_type r = type
    | None => True
    end
  ∧ match date_from with
    | Some d => combine_min d ≤ MaintenanceRecord.service_date r
    | None => True
    end
  ∧ match date_to with
    | Some d => MaintenanceRecord.service_date r ≤ combine_max d
    | None => True
    end.

#[global] Instance matches_dec racket type date_from date_to r :
  Decision (matches racket type date_from date_to r).
Proof. unfold matches. repeat case_match; apply _. Defined.

(** [ORDER BY service_date DESC] *)
Definition by_service_date_desc (a b : MaintenanceRecord.t) : Prop :=
  MaintenanceRecord.service_date b ≤ MaintenanceRecord.service_date a.

#[global] Instance by_service_date_desc_dec a b : Decision (by_service_date_desc a b).
Proof. unfold by_service_date_desc. apply _. Defined.

(** The rows of the query before [OFFSET] and [LIMIT]. *)
Definition selected (client_racket_id : option string) (service_type : option ServiceType)
    (date_from date_to : option Z) (table : Table) : list MaintenanceRecord.t :=
  merge_sort by_service_date_desc
    (filter (matches client_racket_id service_type date_from date_to) table).

(** [GET /maintenance/].  The handler only reads: the table is its argument.
    [page] and [limit] are declared [Query(1, ge=1)] and
    [Query(20, ge=1, le=100)]; [OFFSET] and [LIMIT] are given for the values
    that pass that validation.  [None] is the [ZeroDivisionError] of
    [PaginatedResponse.create]. *)
Definition list_maintenance_records (page limit : Z)
    (client_racket_id : option string) (service_type : option ServiceType)
    (date_from date_to : option Z) (table : Table) :
    option (PaginatedResponse.t MaintenanceRecord.t) :=
  (* Get total count *)
  let total :=
    Z.of_nat (length (filter (matches client_racket_id service_type date_from date_to)
                        table)) in
  (* Apply pagination *)
  let offset := (page - 1) * limit in
  let records :=
    take (Z.to_nat limit)
      (drop (Z.to_nat offset)
         (selected client_racket_id service_type date_from date_to table)) in
  PaginatedResponse.create records total page limit.

(** *** The handlers that look one record up *)

(** What these handlers can raise: an exception of [Exn], or the
    [AttributeError] of an attribute look-up on an object whose class does
    not have the attribute. *)
Inductive Error :=
  | Known (e : Exn)
  | AttributeError (type_name attribute : string).

Inductive Outcome (A : Type) :=
  | Returned (a : A)
  | Raised (e : Error).
Arguments Returned {A} a.
Arguments Raised {A} e.

(** The status code the transport answers with. *)
Definition status_code {A} (success : Z) (r : Outcome A) : Z :=
  match r with
  | Returned _ => success
  | Raised (Known (HTTPException c _ _)) => c
  | Raised _ => HTTP_500_INTERNAL_SERVER_ERROR
  end.

(** The session of a request served alone: the committed rows and the
    instances marked for deletion. *)
Record Session := mkSession {
  store : Table;
  deleted : list MaintenanceRecord.t
}.

Definition Db (A : Type) : Type := Session → Outcome A * Session.

Definition ret {A} (a : A) : Db A := λ s, (Returned a, s).
Definition raise {A} (e : Error) : Db A := λ s, (Raised e, s).
Definition bind {A B} (m : Db A) (k : A → Db B) : Db B :=
  λ s, match m s with
       | (Returned a, s') => k a s'
       | (Raised e, s') => (Raised e, s')
       end.

Declare Scope maintenance_scope.
Notation "'let*' x ':=' m 'in' k" := (bind m (λ x, k))
  (at level 10, x name, m at level 100, k at level 200) : maintenance_scope.
Notation "m ';;' k" := (bind m (λ _, k))
  (at level 100, k at level 200, right associativity, only parsing) : maintenance_scope.
Local Open Scope maintenance_scope.

(** [await db.execute(select(MaintenanceRecord).where(P))] *)
Definition execute_select (P : MaintenanceRecord.t → Prop) `{∀ r, Decision (P r)} :
    Db (list MaintenanceRecord.t) :=
  λ s, (Returned (filter P (store s)), s).

(** [result.scalar_one_or_none()] *)
Definition scalar_one_or_none (result : list MaintenanceRecord.t) :
    Db (option MaintenanceRecord.t) :=
  match result with
  | [] => ret None
  | [row] => ret (Some row)
  | _ => raise (Known MultipleResultsFound)
  end.

(** [await db.delete(obj)] *)
Definition delete (row : MaintenanceRecord.t) : Db unit :=
  λ s, (Returned tt, mkSession (store s) (deleted s ++ [row])).

(** [await db.commit()]: the flush issues a DELETE by primary key for each
    instance marked for deletion.  No table refers to [maintenance_records],
    so no constraint refuses it. *)
Definition commit : Db unit :=
  λ s, (Returned tt,
        mkSession
          (filter (λ r, MaintenanceRecord.id r ∉ MaintenanceRecord.id <$> deleted s)
             (store s))
          []).

(** [await session.rollback()] *)
Definition rollback (s : Session) : Session := mkSession (store s) [].

(** [get_db] of [app/database.py] around a handler of this router. *)
Definition get_db {A} (handler : Db A) (db : Table) : Outcome A * Session :=
  let session := mkSession db [] in
  match handler session with
  | (Returned a, s) =>
      match commit s with
      | (Returned _, s') => (Returned a, s')
      | (Raised e, s') => (Raised e, rollback s')
      end
  | (Raised e, s) => (Raised e, rollback s)
  end.

(** [GET /maintenance/{record_id}] *)
Definition get_maintenance_record (record_id : string) : Db MaintenanceRecord.t :=
  let* result := execute_select (λ r, MaintenanceRecord.id r = record_id) in
  let* record := scalar_one_or_none result in
  match record with
  | None =>
      raise (Known (NotFoundException
                      ("Maintenance record with ID " +:+ record_id +:+ " not found")))
  | Some record => ret record
  end.

(** [record.model_dump(exclude_unset=True)] where [record] is an instance of
    the ORM class: [MaintenanceRecord] defines its columns, its relationships
    and [__repr__], and no [model_dump]. *)
Definition model_dump {UpdateData} (record : MaintenanceRecord.t) : Db UpdateData :=
  raise (AttributeError "MaintenanceRecord" "model_dump").

Section Update.
Context {UpdateData : Type}.

(** The statements of [update_maintenance_record] after the call of
    [model_dump]: the [setattr] loop over the dictionary, the commit and the
    refresh. *)
Variable setattrs_commit_refresh :
  MaintenanceRecord.t → UpdateData → Db MaintenanceRecord.t.

(** [PUT /maintenance/{record_id}].  The result of the look-up is assigned to
    [record], the name of the parameter that holds the request body: from
    that line on [record] is the row, and it is the row whose [model_dump] is
    called. *)
Definition update_maintenance_record (record_id : string)
    (record : MaintenanceRecordUpdate.t) : Db MaintenanceRecord.t :=
  let* result := execute_select (λ r, MaintenanceRecord.id r = record_id) in
  let* record := scalar_one_or_none result in
  match record with
  | None =>
      raise (Known (NotFoundException
                      ("Maintenance record with ID " +:+ record_id +:+ " not found")))
  | Some record =>
      (* Update fields *)
      let* update_data := model_dump record in
      setattrs_commit_refresh record update_data
  end.

End Update.

(** [DELETE /maintenance/{record_id}] *)
Definition delete_maintenance_record (record_id : string) : Db unit :=
  let* result := execute_select (λ r, MaintenanceRecord.id r = record_id) in
  let* record := scalar_one_or_none result in
  match record with
  | None =>
      raise (Known (NotFoundException
                      ("Maintenance record with ID " +:+ record_id +:+ " not found")))
  | Some record =>
      delete record ;;
      commit ;;
      ret tt
  end.

End Maintenance.

(** ** Sample maintenance records *)

Module MaintenanceFixtures.

Definition record (id racket : string) (service_date : Z) (type : ServiceType) :
    MaintenanceRecord.t :=
  {| MaintenanceRecord.id := id;
     MaintenanceRecord.client_racket_id := racket;
     MaintenanceRecord.performed_by_user_id := "c4fa281e-11af-4510-82f6-509ae30ffc98";
     MaintenanceRecord.service_date := service_date;
     MaintenanceRecord.service_type := type;
     MaintenanceRecord.main_string_id := None;
     MaintenanceRecord.cross_string_id := None;
     MaintenanceRecord.main_tension_kg := Some 2450;
     MaintenanceRecord.cross_tension_kg := Some 2350;
     MaintenanceRecord.string_pattern := Some "16x19";
     MaintenanceRecord.base_grip_id := None;
     MaintenanceRecord.overgrip_id := None;
     MaintenanceRecord.number_of_overgrips := 1;
     MaintenanceRecord.dampener_id := None;
     MaintenanceRecord.dampener_position := None;
     MaintenanceRecord.service_cost := 2500;
     MaintenanceRecord.duration_minutes := Some 30;
     MaintenanceRecord.notes := None;
     MaintenanceRecord.is_warranty_service := false;
     MaintenanceRecord.next_service_due_date := None;
     MaintenanceRecord.created_at := service_date;
     MaintenanceRecord.updated_at := service_date |}.

(** Day 19700 is 2023-12-09. *)
Definition first : MaintenanceRecord.t :=
  record "m1" "racket-1" (19700 * 86400000000 + 36000000000) STRINGING.
Definition second : MaintenanceRecord.t :=
  record "m2" "racket-2" (19701 * 86400000000) REPAIR.
Definition third : MaintenanceRecord.t :=
  record "m3" "racket-1" (19702 * 86400000000 + 86399999999) STRINGING.

Definition table : Maintenance.Table := [first; second; third].

End MaintenanceFixtures.

(** ** Sample categories *)

Module CategoryFixtures.

Definition strings : ProductCategory.t := {|
  ProductCategory.id := "5f0c8a52-0d36-4d0c-9b6e-0a1b2c3d4e5f";
  ProductCategory.name := "Strings";
  ProductCategory.slug := "strings";
  ProductCategory.description := Some "Tennis strings";
  ProductCategory.is_active := true;
  ProductCategory.sort_order := 2;
  ProductCategory.created_at := 1700000000;
  ProductCategory.updated_at := 1700000000
|}.

Definition grips : ProductCategory.t := {|
  ProductCategory.id := "7a1d9b63-1e47-4e1d-8c7f-1b2c3d4e5f60";
  ProductCategory.name := "Grips";
  ProductCategory.slug := "grips";
  ProductCategory.description := None;
  ProductCategory.is_active := true;
  ProductCategory.sort_order := 1;
  ProductCategory.created_at := 1700000000;
  ProductCategory.updated_at := 1700000000
|}.

Definition db : Categories.Table := [strings; grips].

Definition now : Z := 1700000500.



(** The body [{"description": null, "sort_order": 5}]. *)
Definition reorder : ProductCategoryUpdate.t := {|
  ProductCategoryUpdate.name := None;
  ProductCategoryUpdate.slug := None;
  ProductCategoryUpdate.description := Some None;
  ProductCategoryUpdate.sort_order := Some (Some 5);
  ProductCategoryUpdate.is_active := None
|}.

End CategoryFixtures.

(** ** Contracts of the collaborators *)

(** The codec decodes the token [make] makes for the identifier of [u] to
    claims with that subject and the type [type]. *)
Definition decodes_to `{Security} (make : TokenPayload.t → string) (type : string)
    (u : User.t) : Prop :=
  (λ p, (TokenPayload.sub p, TokenPayload.type p))
    <$> decode_token (make (TokenPayload.of_sub (User.id u)))
  = Some (Some (User.id u), Some type).

(** ** More sample data *)

Module Fixtures.

Definition carol_id : string := "9b2c1f0e-5d4a-4c3b-8a7f-6e5d4c3b2a19".

(** A registration that collides with nothing in [Sample.db]. *)
Definition carol_data : UserCreate.t := {|
  UserCreate.email := "carol@x.com";
  UserCreate.username := "carol";
  UserCreate.first_name := "Carol";
  UserCreate.last_name := "C";
  UserCreate.phone_number := Some "555-0101";
  UserCreate.role := ADMIN;
  UserCreate.password := "correct horse"
|}.

(** A later request, served after [Sample.now] with another salt. *)
Definition later : Z := Sample.now + 3600.
Definition later_security : Security := @security_model Sample.crypto later "nacl".

End Fixtures.

(** * Properties *)

(** ** Strings *)

Section PyStrFacts.
Import PyStr.

Lemma prefix_append (p t : string) : String.prefix p (p +:+ t) = true.
Proof.
  induction p as [|c p IH]; simpl.
  - by destruct t.
  - destruct (ascii_dec c c); [exact IH | done].
Qed.

Lemma prefix_empty (s : string) : String.prefix "" s = true.
Proof. by destruct s. Qed.

Lemma prefix_split (p s : string) :
  String.prefix p s = true → ∃ t, s = p +:+ t.
Proof.
  revert s; induction p as [|c p IH]; intros s Hp.
  - by exists s.
  - destruct s as [|d s]; simpl in Hp; [done|].
    destruct (ascii_dec c d) as [->|]; [|done].
    destruct (IH _ Hp) as [t ->]. by exists t.
Qed.

(** [contains] is the substring relation. *)
Lemma contains_spec (sub s : string) :
  contains sub s = true ↔ ∃ a b, s = a +:+ sub +:+ b.
Proof.
  split.
  - induction s as [|c s IH]; cbn [contains]; intros Hc.
    + rewrite orb_false_r in Hc. destruct sub; [by exists "", ""|done].
    + apply orb_true_iff in Hc as [Hc|Hc].
      * destruct (prefix_split _ _ Hc) as [t Ht]. by exists "", t.
      * destruct (IH Hc) as (a & b & ->). by exists (String c a), b.
  - intros (a & b & ->). induction a as [|c a IH].
    + change ("" +:+ sub +:+ b) with (sub +:+ b).
      destruct (sub +:+ b) eqn:E; cbn [contains];
        rewrite <- E, prefix_append; done.
    + change (String c a +:+ sub +:+ b) with (String c (a +:+ sub +:+ b)).
      cbn [contains]. rewrite IH. apply orb_true_r.
Qed.

(** Once an occurrence has been recognised, its remaining characters are
    dropped whatever they are. *)
Lemma replace_from_skip (old new a t : string) :
  replace_from old new (String.length a) (a +:+ t) = replace_from old new 0 t.
Proof.
  induction a as [|c a IH]; simpl; [|exact IH].
  destruct t; reflexivity.
Qed.

(** A leading occurrence is replaced and the scan goes on behind it. *)
Lemma replace_leading (old new t : string) :
  old ≠ "" →
  replace (old +:+ t) old new = new +:+ replace t old new.
Proof.
  intros Hne. destruct old as [|c old]; [done|].
  unfold replace.
  change (String c old +:+ t) with (String c (old +:+ t)).
  cbn [replace_from].
  change (String c (old +:+ t)) with (String c old +:+ t).
  rewrite prefix_append.
  cbn [String.length]. rewrite Nat.sub_succ, Nat.sub_0_r.
  by rewrite replace_from_skip.
Qed.

(** Without an occurrence the string is returned as it is. *)
Lemma replace_absent (old new s : string) :
  contains old s = false → replace s old new = s.
Proof.
  unfold replace. induction s as [|c s IH]; [done|].
  cbn [contains]. intros Hc. apply orb_false_iff in Hc as [Hp Hc].
  cbn [replace_from]. rewrite Hp. by rewrite IH.
Qed.

Lemma replace_from_length (old : string) (k : nat) (s : string) :
  (String.length (replace_from old "" k s) ≤ String.length s)%nat.
Proof.
  revert k; induction s as [|c s IH]; intros k; [simpl; lia|].
  cbn [replace_from]. destruct k as [|k].
  - destruct (String.prefix old (String c s)); cbn [String.length].
    + specialize (IH (String.length old - 1)%nat).
      change ("" +:+ ?x) with x. lia.
    + specialize (IH 0%nat). lia.
  - specialize (IH k). cbn [String.length]. lia.
Qed.

(** Deleting the occurrences of a substring that is present shortens the
    string. *)
Lemma replace_shrinks (old s : string) :
  old ≠ "" →
  contains old s = true →
  (String.length (replace s old "") < String.length s)%nat.
Proof.
  intros Hne. unfold replace. induction s as [|c s IH]; intros Hc.
  - destruct old; [done|]. simpl in Hc. done.
  - cbn [contains] in Hc. cbn [replace_from].
    destruct (String.prefix old (String c s)) eqn:Hp.
    + pose proof (replace_from_length old (String.length old - 1) s).
      change ("" +:+ ?x) with x. cbn [String.length]. lia.
    + rewrite orb_false_l in Hc. specialize (IH Hc).
      cbn [String.length]. lia.
Qed.

End PyStrFacts.

(** ** Queries on a table that satisfies its constraints *)

Section Queries.
Context {K : Type} `{EqDecision K} (key : User.t → K).

Lemma select_none (x : K) (table : Table) :
  (∀ u, u ∈ table → key u ≠ x) → filter (λ u, key u = x) table = [].
Proof.
  induction table as [|a table IH]; intros Hno; [done|].
  rewrite filter_cons_False.
  - apply IH. intros u Hu. apply Hno. by right.
  - apply Hno. by left.
Qed.

Lemma select_one (x : K) (table : Table) (u : User.t) :
  NoDup (key <$> table) → u ∈ table → key u = x →
  filter (λ u, key u = x) table = [u].
Proof.
  induction table as [|a table IH]; intros Hnd Hu Hx.
  - by apply elem_of_nil in Hu.
  - rewrite fmap_cons in Hnd. apply NoDup_cons in Hnd as [Ha Hnd].
    apply elem_of_cons in Hu as [->|Hu].
    + rewrite filter_cons_True by done. f_equal.
      apply select_none. intros v Hv Hkv. apply Ha.
      rewrite Hx, <- Hkv. by apply list_elem_of_fmap_2.
    + rewrite filter_cons_False; [by apply IH|].
      intros Hax. apply Ha. rewrite Hax, <- Hx. by apply list_elem_of_fmap_2.
Qed.

(** A query on a unique column has no row or one. *)
Lemma select_unique (x : K) (table : Table) :
  NoDup (key <$> table) →
  (filter (λ u, key u = x) table = [] ∧ ∀ u, u ∈ table → key u ≠ x)
  ∨ (∃ u, filter (λ u, key u = x) table = [u] ∧ u ∈ table ∧ key u = x).
Proof.
  intros Hnd. destruct (decide (x ∈ key <$> table)) as [Hin|Hout].
  - right. apply list_elem_of_fmap in Hin as (u & -> & Hu).
    exists u. split; [by apply select_one|done].
  - left. assert (∀ u, u ∈ table → key u ≠ x) as Hno.
    { intros u Hu <-. apply Hout. by apply list_elem_of_fmap_2. }
    split; [by apply select_none|done].
Qed.

(** Two rows of the table with the same key are the same row. *)
Lemma key_inj (table : Table) (u v : User.t) :
  NoDup (key <$> table) → u ∈ table → v ∈ table → key u = key v → u = v.
Proof.
  intros Hnd Hu Hv Huv.
  pose proof (select_one (key v) table u Hnd Hu Huv) as E1.
  pose proof (select_one (key v) table v Hnd Hv eq_refl) as E2.
  congruence.
Qed.

End Queries.

(** Unfolds the session operations of a handler run by [get_db]. *)
Ltac run :=
  unfold get_db, bind, ret, raise, execute_select, scalar_one_or_none, add,
    commit, refresh, rollback, await; cbn.

(** ** The authorization gate *)

Section Gate.
Context `{Security} `{Uuid}.

Lemma bearer_token_leading (t : string) :
  bearer_token ("Bearer " +:+ t) = bearer_token t.
Proof. unfold bearer_token. by rewrite replace_leading. Qed.

(** Every token in which the scheme prefix occurs is altered on its way to
    the decoder. *)
Lemma bearer_token_mangles (t : string) :
  PyStr.contains "Bearer " t = true → bearer_token ("Bearer " +:+ t) ≠ t.
Proof.
  intros Hc E. rewrite bearer_token_leading in E.
  pose proof (replace_shrinks "Bearer " t ltac:(done) Hc) as Hlt.
  unfold bearer_token in E. rewrite E in Hlt. lia.
Qed.

Lemma get_current_user_bearer (t : string) :
  get_current_user (Some ("Bearer " +:+ t))
  = principal_of (decode_token (bearer_token ("Bearer " +:+ t))).
Proof.
  unfold get_current_user, truthy_str, PyStr.startswith.
  change (String.eqb ("Bearer " +:+ t) "") with false. cbv iota.
  rewrite prefix_append. reflexivity.
Qed.

End Gate.

Section GateOutcomes.
Context `{Security} `{Uuid}.

(** The gate from the decoded payload on: either the request is answered
    401 and one of the listed reasons holds, or none holds and the user the
    subject names is returned. *)
Lemma principal_of_cases (payload : option TokenPayload.t) (db : Table) :
  db_ok db →
  let outcome := (get_db [] (principal_of payload) db).1 in
  let rejected :=
      payload = None
    ∨ (∃ p, payload = Some p ∧ TokenPayload.type p ≠ Some "access")
    ∨ (∃ p, payload = Some p ∧ TokenPayload.sub p = None)
    ∨ (∃ p s, payload = Some p ∧ TokenPayload.sub p = Some s ∧ UUID s = false)
    ∨ (∃ p s, payload = Some p ∧ TokenPayload.sub p = Some s
              ∧ ∀ u, u ∈ db → User.id u ≠ s)
    ∨ (∃ p s u, payload = Some p ∧ TokenPayload.sub p = Some s
                ∧ u ∈ db ∧ User.id u = s ∧ User.is_active u = false) in
  (Unauthorized outcome ∧ rejected)
  ∨ (¬ rejected ∧ ∃ p u, payload = Some p ∧ u ∈ db
       ∧ TokenPayload.sub p = Some (User.id u) ∧ outcome = Ok u).
Proof.
  intros (Hid & _ & _ & Hne) outcome rejected.
  subst outcome rejected. unfold principal_of.
  destruct payload as [p|]; cbn [truthy_payload].
  2:{ left. split; [by eexists|by left]. }
  case_bool_decide as Hemp.
  { left. split; [by eexists|]. right; left. exists p. by subst p. }
  unfold verify_token_type. case_bool_decide as Hty; cbn [negb].
  2:{ left. split; [by eexists|]. right; left. by exists p. }
  destruct (TokenPayload.sub p) as [s|] eqn:Hsub; cbn [truthy_str].
  2:{ left. split; [by eexists|]. do 2 right; left. by exists p. }
  destruct (String.eqb s "") eqn:Hs.
  { apply String.eqb_eq in Hs as ->. left. split; [by eexists|].
    do 4 right; left. exists p, "". split_and!; [done..|].
    intros u Hu. by eapply Forall_forall in Hne. }
  destruct (UUID s) eqn:Hu; cbn [negb].
  2:{ left. split; [by eexists|]. do 3 right; left. by exists p, s. }
  destruct (select_unique User.id s db Hid) as [[E Hno]|(u & E & Hin & Hk)].
  - left. split; [run; rewrite E; by eexists|].
    do 4 right; left. by exists p, s.
  - destruct (User.is_active u) eqn:Hact.
    + right. split.
      * intros [?|[(p0&?&?)|[(p0&?&?)|[(p0&s0&?&?&?)|
          [(p0&s0&?&?&Hno)|(p0&s0&u0&?&?&Hin0&Hk0&Hact0)]]]]];
          simplify_eq; try congruence.
        -- by apply (Hno u).
        -- assert (u0 = u) as -> by by apply (key_inj User.id db).
           congruence.
      * exists p, u. split_and!; [done..|by rewrite Hk|].
        run. rewrite E. cbn. by rewrite Hact.
    + left. split.
      * run. rewrite E. cbn. rewrite Hact. by eexists.
      * do 5 right. by exists p, s, u.
Qed.

(** C1.  Under the constraints of the [users] table, [get_current_user]
    answers 401 when the Authorization header is absent or does not start
    with "Bearer ", when [decode_token] yields no payload, when the type
    claim is not "access", when the "sub" claim is missing or not a UUID,
    when no row has that id or the row is inactive; in every other case it
    returns the row of the user the subject names. *)
Theorem get_current_user_outcomes (authorization : option string) (db : Table) :
  db_ok db →
  let outcome := (get_db [] (get_current_user authorization) db).1 in
  let payload := decode_token (bearer_token (default "" authorization)) in
  let rejected :=
      authorization = None
    ∨ (∃ a, authorization = Some a ∧ PyStr.startswith a "Bearer " = false)
    ∨ payload = None
    ∨ (∃ p, payload = Some p ∧ TokenPayload.type p ≠ Some "access")
    ∨ (∃ p, payload = Some p ∧ TokenPayload.sub p = None)
    ∨ (∃ p s, payload = Some p ∧ TokenPayload.sub p = Some s ∧ UUID s = false)
    ∨ (∃ p s, payload = Some p ∧ TokenPayload.sub p = Some s
              ∧ ∀ u, u ∈ db → User.id u ≠ s)
    ∨ (∃ p s u, payload = Some p ∧ TokenPayload.sub p = Some s
                ∧ u ∈ db ∧ User.id u = s ∧ User.is_active u = false) in
  (rejected → Unauthorized outcome)
  ∧ (¬ rejected → ∃ p u, payload = Some p ∧ u ∈ db
       ∧ TokenPayload.sub p = Some (User.id u) ∧ outcome = Ok u).
Proof.
  intros Hok outcome payload rejected.
  assert ((Unauthorized outcome ∧ rejected)
          ∨ (¬ rejected ∧ ∃ p u, payload = Some p ∧ u ∈ db
               ∧ TokenPayload.sub p = Some (User.id u) ∧ outcome = Ok u))
    as [[Hout Hrej]|[Hacc Hout]]; [|by split..].
  subst outcome payload rejected.
  destruct authorization as [a|]; cbn [default].
  2:{ left. split; [by eexists|by left]. }
  unfold get_current_user. cbn [truthy_str].
  destruct (String.eqb a "") eqn:Ha.
  { apply String.eqb_eq in Ha as ->. left. split; [by eexists|].
    right; left. by exists "". }
  destruct (PyStr.startswith a "Bearer ") eqn:Hs; cbn [negb].
  2:{ left. split; [by eexists|]. right; left. by exists a. }
  cbv zeta.
  destruct (principal_of_cases (decode_token (bearer_token a)) db Hok)
    as [[Hout Hrej]|[Hacc Hout]].
  - left. split; [done|]. by do 2 right.
  - right. split; [|done].
    intros [?|[(a0&?&?)|Hrej]]; simplify_eq; [congruence|by apply Hacc].
Qed.

(** C10.  The token handed to [decode_token] is the header with every
    occurrence of "Bearer " deleted: for a header "Bearer t" where
    "Bearer " does not occur in [t] it is exactly [t], and there are tokens
    containing "Bearer " that reach the decoder altered. *)
Theorem bearer_token_extraction :
  (∀ t, PyStr.contains "Bearer " t = false →
        bearer_token ("Bearer " +:+ t) = t
        ∧ get_current_user (Some ("Bearer " +:+ t)) = principal_of (decode_token t))
  ∧ (∃ t, PyStr.contains "Bearer " t = true
          ∧ bearer_token ("Bearer " +:+ t) ≠ t
          ∧ get_current_user (Some ("Bearer " +:+ t))
            = principal_of (decode_token (bearer_token t))).
Proof.
  split.
  - intros t Hc.
    assert (bearer_token ("Bearer " +:+ t) = t) as E.
    { rewrite bearer_token_leading. by apply replace_absent. }
    split; [done|]. by rewrite get_current_user_bearer, E.
  - exists "abcBearer def". split; [done|]. split.
    + by apply bearer_token_mangles.
    + by rewrite get_current_user_bearer, bearer_token_leading.
Qed.

End GateOutcomes.

Lemma sample_db_ok : db_ok Sample.db.
Proof. apply (bool_decide_unpack (db_ok Sample.db)). vm_compute. exact I. Defined.

Lemma get_current_user_outcomes_witness :
  db_ok Sample.db
  ∧ Unauthorized (get_db [] (@get_current_user Sample.security Sample.uuid
                               (Some "Basic YWxpY2U6c2VjcmV0")) Sample.db).1.
Proof.
  split; [exact sample_db_ok|].
  apply (proj1 (@get_current_user_outcomes Sample.security Sample.uuid
                  (Some "Basic YWxpY2U6c2VjcmV0") Sample.db sample_db_ok)).
  right; left. by eexists.
Defined.

Lemma bearer_token_extraction_witness :
  PyStr.contains "Bearer " "abc.def" = false
  ∧ bearer_token "Bearer abc.def" = "abc.def".
Proof.
  split; [reflexivity|].
  exact (proj1 (proj1 (@bearer_token_extraction Sample.security Sample.uuid)
                  "abc.def" eq_refl)).
Defined.

(** ** Role check and token types *)

Section Roles.
Context `{Security} `{Uuid}.

(** The gate only reads: it leaves the session as it found it. *)
Lemma get_current_user_reads (authorization : option string) (db : Table) :
  (get_current_user authorization (mkSession db [] [])).2 = mkSession db [] [].
Proof.
  unfold get_current_user, principal_of, bind, execute_select,
    scalar_one_or_none, await, ret, raise; cbn.
  repeat (case_match; simplify_eq/=; try done).
Qed.

(** What the gate raises is a 401, or the query's complaint about a table
    that breaks its primary key. *)
Lemma get_current_user_raises (authorization : option string) (s : Session) (e : Exn) :
  (get_current_user authorization s).1 = Raise e →
  (∃ detail, e = UnauthorizedException detail) ∨ e = MultipleResultsFound.
Proof.
  unfold get_current_user, principal_of, bind, execute_select,
    scalar_one_or_none, await, ret, raise; cbn.
  repeat (case_match; simplify_eq/=; try done); intros; simplify_eq/=; eauto.
Qed.

(** C6.  [require_admin] answers 403, which is not 401, exactly when the
    principal's role is not admin, and returns the principal unchanged when
    it is.  Behind [Depends], a failure of [get_current_user] is the failure
    of the request as it stands, so a 403 is only ever answered for an
    established principal whose role is not admin. *)
Theorem require_admin_forbidden :
  (∀ current_user s,
      (Forbidden (require_admin current_user s).1 ↔ User.role current_user ≠ ADMIN)
      ∧ (User.role current_user = ADMIN →
         require_admin current_user s = (Ok current_user, s)))
  ∧ (∀ A (r : Result A), Forbidden r → ¬ Unauthorized r)
  ∧ (∀ authorization db e,
      (get_db [] (get_current_user authorization) db).1 = Raise e →
      (get_db [] (depends_require_admin authorization) db).1 = Raise e)
  ∧ (∀ authorization db,
      Forbidden (get_db [] (depends_require_admin authorization) db).1 →
      ∃ current_user,
        (get_db [] (get_current_user authorization) db).1 = Ok current_user
        ∧ User.role current_user ≠ ADMIN).
Proof.
  split_and!.
  - intros u s. unfold require_admin, raise, ret.
    case_bool_decide as Hr; cbn; split.
    + split; [by intros [d ?]|done].
    + done.
    + split; [done|by eexists].
    + done.
  - intros A r [d ->] [d' ?]. done.
  - intros a db e. unfold get_db, depends_require_admin, bind.
    pose proof (get_current_user_reads a db) as Hs.
    destruct (get_current_user a _) as [[u|e'] s]; cbn in Hs; subst s; cbn.
    + done.
    + done.
  - intros a db. unfold get_db, depends_require_admin, bind.
    pose proof (get_current_user_reads a db) as Hs.
    destruct (get_current_user a _) as [[u|e'] s] eqn:Hg; cbn in Hs; subst s; cbn.
    + unfold require_admin, raise, ret.
      case_bool_decide as Hr; cbn.
      * by intros [d ?].
      * intros _. by exists u.
    + intros [d [= ->]].
      destruct (get_current_user_raises a _ _ (f_equal fst Hg)) as [[d' E]|E];
        by cbv in E.
Qed.

End Roles.

Lemma require_admin_forbidden_witness :
  User.role Sample.root = ADMIN
  ∧ require_admin Sample.root (mkSession Sample.db [] [])
    = (Ok Sample.root, mkSession Sample.db [] []).
Proof.
  split; [reflexivity|].
  apply (proj2 (proj1 (@require_admin_forbidden Sample.security Sample.uuid)
                  Sample.root (mkSession Sample.db [] []))).
  reflexivity.
Defined.

Lemma unauthorized_status {A} (success : Z) (r : Result A) :
  Unauthorized r → status_code_of success r = HTTP_401_UNAUTHORIZED.
Proof. by intros [d ->]. Qed.

Section TokenTypes.
Context `{Security} `{Uuid}.

(** C5.  A token whose type claim is "refresh" is answered 401 by
    [get_current_user], hence by [GET /auth/me], and a token whose type
    claim is "access" is answered 401 by [POST /auth/refresh]. *)
Theorem token_types_not_interchangeable :
  (∀ authorization db p,
      decode_token (bearer_token (default "" authorization)) = Some p →
      TokenPayload.type p = Some "refresh" →
      Unauthorized (get_db [] (get_current_user authorization) db).1
      ∧ status_code_of 200 (get_db [] (get_current_user_info authorization) db).1
        = HTTP_401_UNAUTHORIZED)
  ∧ (∀ refresh_data db p,
      decode_token (RefreshTokenRequest.refresh_token refresh_data) = Some p →
      TokenPayload.type p = Some "access" →
      Unauthorized (get_db [] (refresh_access_token refresh_data) db).1).
Proof.
  split.
  - intros a db p Hp Hty.
    assert (Unauthorized (get_current_user a (mkSession db [] [])).1) as [d Hd].
    { unfold get_current_user.
      destruct a as [a|]; cbn [truthy_str]; [|by eexists].
      destruct (String.eqb a ""); [by eexists|].
      destruct (PyStr.startswith a "Bearer "); cbn [negb]; [|by eexists].
      change (default "" (Some a)) with a in Hp. cbv zeta. rewrite Hp.
      unfold principal_of, truthy_payload, verify_token_type.
      case_bool_decide; [by eexists|].
      rewrite Hty. by eexists. }
    unfold get_current_user_info, get_db, bind.
    destruct (get_current_user a _) as [[u|e] s]; cbn in Hd; [done|].
    simplify_eq. split; [by eexists|done].
  - intros rd db p Hp Hty.
    unfold get_db, refresh_access_token. rewrite Hp.
    unfold truthy_payload, verify_token_type.
    case_bool_decide; [by eexists|].
    rewrite Hty. by eexists.
Qed.

End TokenTypes.

(** ** The model of the password hasher and of the token codec *)

Section ModelFacts.
Import SecurityModel.
Context `{Crypto}.

Lemma append_cons (c : ascii) (a b : string) :
  String c a +:+ b = String c (a +:+ b).
Proof. reflexivity. Qed.

Lemma append_empty_l (a : string) : "" +:+ a = a.
Proof. reflexivity. Qed.

Lemma unquote_quote (s rest : string) :
  unquote (quote s +:+ rest) = Some (s, rest).
Proof.
  induction s as [|c s IH]; cbn [quote]; rewrite !append_cons; cbn [unquote].
  - done.
  - cbn [Ascii.eqb Bool.eqb]. by rewrite IH.
Qed.

Lemma unquote_opt_quote_opt (o : option string) (rest : string) :
  unquote_opt (quote_opt o +:+ rest) = Some (o, rest).
Proof.
  destruct o as [s|]; cbn [quote_opt]; rewrite !append_cons; cbn.
  - by rewrite unquote_quote.
  - done.
Qed.

Lemma Z_of_to_string (z : Z) : Z_of_string (Z_to_string z) = Some z.
Proof.
  unfold Z_of_string, Z_to_string.
  by rewrite NilEmpty.isi, DecimalZ.of_to.
Qed.

Lemma append_assoc (a b c : string) : (a +:+ b) +:+ c = a +:+ (b +:+ c).
Proof.
  induction a as [|x a IH]; [done|]. by rewrite !append_cons, IH.
Qed.

Lemma append_empty_r (a : string) : a +:+ "" = a.
Proof.
  induction a as [|x a IH]; [done|]. by rewrite append_cons, IH.
Qed.

(** The encoding of the claim set can be read back. *)
Lemma deserialize_serialize (claims : TokenPayload.t) :
  deserialize (serialize claims) = Some claims.
Proof.
  destruct claims as [sub exp type].
  unfold deserialize, serialize; cbn [TokenPayload.sub TokenPayload.exp TokenPayload.type].
  rewrite !unquote_opt_quote_opt.
  rewrite <- (append_empty_r (quote_opt type)), unquote_opt_quote_opt.
  destruct exp as [z|]; cbn; [by rewrite Z_of_to_string|done].
Qed.

(** What the decoder makes of a token that [sign] produced. *)
Lemma check_token_sign (now : Z) (claims : TokenPayload.t) :
  check_token now (sign claims)
  = match TokenPayload.sub claims, TokenPayload.exp claims, TokenPayload.type claims with
    | Some _, Some exp, Some _ => if (exp <? now)%Z then inl Expired else inr claims
    | _, _, _ => inl MissingClaim
    end.
Proof.
  unfold check_token, sign. cbv zeta.
  rewrite unquote_quote, String.eqb_refl. cbn [negb].
  by rewrite deserialize_serialize.
Qed.

(** A token that decodes carries an expiry, is not past it, and decodes to
    the same claims at every time up to it. *)
Lemma decode_token_until (now : Z) (token : string) (claims : TokenPayload.t) :
  decode_token now token = Some claims →
  ∃ exp, TokenPayload.exp claims = Some exp ∧ now ≤ exp
         ∧ ∀ now', now' ≤ exp → decode_token now' token = Some claims.
Proof.
  unfold decode_token, check_token.
  destruct (unquote token) as [[body signature]|]; [|done].
  destruct (negb _); [done|].
  destruct (deserialize body) as [c|]; [|done].
  destruct (TokenPayload.sub c), (TokenPayload.exp c) as [e|] eqn:He,
    (TokenPayload.type c); try done.
  destruct (e <? now) eqn:Hlt; [done|]. intros [= <-].
  exists e. split_and!; [done|lia|].
  intros now' Hle. by replace (e <? now') with false by lia.
Qed.

Lemma substring_prefix (s rest : string) :
  substring 0 (String.length s) (s +:+ rest) = s.
Proof.
  induction s as [|c s IH]; [by destruct rest|].
  rewrite append_cons. cbn. by rewrite IH.
Qed.

Lemma append_inj_length (a b c d : string) :
  String.length a = String.length b → a +:+ c = b +:+ d → a = b.
Proof.
  revert b. induction a as [|x a IH]; intros [|y b]; cbn; try done.
  rewrite !append_cons. intros [= Hl] [= -> E]. f_equal. by apply IH.
Qed.

(** C9.  A digest verifies against the plaintext it was produced from,
    whatever salt the call drew; two calls that draw different salts produce
    different digests, and both verify. *)
Theorem verify_password_get_password_hash (plaintext : string) :
  (∀ salt, String.length salt = salt_length →
           verify_password plaintext (get_password_hash salt plaintext) = true)
  ∧ (∀ salt salt',
        String.length salt = salt_length → String.length salt' = salt_length →
        salt ≠ salt' →
        get_password_hash salt plaintext ≠ get_password_hash salt' plaintext
        ∧ verify_password plaintext (get_password_hash salt plaintext) = true
        ∧ verify_password plaintext (get_password_hash salt' plaintext) = true).
Proof.
  assert (∀ salt, String.length salt = salt_length →
            verify_password plaintext (get_password_hash salt plaintext) = true) as Hv.
  { intros salt Hl. unfold verify_password, get_password_hash, hash_with.
    rewrite <- Hl, substring_prefix. apply String.eqb_refl. }
  split; [done|].
  intros salt salt' Hl Hl' Hne. split_and!; [|by apply Hv..].
  unfold get_password_hash, hash_with. intros E. apply Hne.
  eapply append_inj_length; [|done]. congruence.
Qed.

(** C8.  [decode_token] is total; it returns the invalid result for a
    malformed encoding, a signature mismatch, an expired timestamp and a
    missing required claim, and for nothing else; a token issued with a ttl
    [t ≥ 0] decodes to its claims at the time of issuance, and up to
    issuance time + [t], and is invalid at every later time. *)
Theorem decode_token_total_and_expiry :
  (∀ now token,
      (∃ claims, decode_token now token = Some claims
                 ∧ check_token now token = inr claims)
      ∨ (decode_token now token = None
         ∧ ∃ reason, check_token now token = inl reason))
  ∧ (∀ now token reason,
      check_token now token = inl reason → decode_token now token = None)
  ∧ (∀ now token, unquote token = None → decode_token now token = None)
  ∧ (∀ now token body signature,
      unquote token = Some (body, signature) →
      signature ≠ mac settings.SECRET_KEY body ∨ deserialize body = None →
      decode_token now token = None)
  ∧ (∀ now claims,
      (∃ exp, TokenPayload.exp claims = Some exp ∧ exp < now)
      ∨ TokenPayload.sub claims = None
      ∨ TokenPayload.exp claims = None
      ∨ TokenPayload.type claims = None →
      decode_token now (sign claims) = None)
  ∧ (∀ now subject type t,
      0 ≤ t →
      let token := issue now subject type t in
      let claims := TokenPayload.mk (Some subject) (Some (now + t)) (Some type) in
      decode_token now token = Some claims
      ∧ (∀ now', now' ≤ now + t → decode_token now' token = Some claims)
      ∧ (∀ now', now + t < now' → decode_token now' token = None)).
Proof.
  split_and!.
  - intros now token. unfold decode_token.
    destruct (check_token now token) as [reason|claims]; [right|left]; eauto.
  - intros now token reason E. unfold decode_token. by rewrite E.
  - intros now token E. unfold decode_token, check_token. by rewrite E.
  - intros now token body signature E [Hs|Hb];
      unfold decode_token, check_token; rewrite E.
    + apply String.eqb_neq in Hs. by rewrite Hs.
    + destruct (negb _); [done|]. by rewrite Hb.
  - intros now claims Hc. unfold decode_token. rewrite check_token_sign.
    destruct (TokenPayload.sub claims), (TokenPayload.exp claims) as [e|],
      (TokenPayload.type claims); try done.
    destruct Hc as [(e' & [= <-] & Hlt)|[?|[?|?]]]; try done.
    by replace (e <? now) with true by lia.
  - intros now subject type t Ht token claims. subst token claims.
    unfold decode_token, issue.
    split_and!; [|intros now' Hn..]; rewrite check_token_sign; cbn.
    + by replace (now + t <? now) with false by lia.
    + by replace (now + t <? now') with false by lia.
    + by replace (now + t <? now') with true by lia.
Qed.

End ModelFacts.

Lemma verify_password_get_password_hash_witness :
  String.length "salt" = @salt_length Sample.crypto
  ∧ @SecurityModel.verify_password Sample.crypto "secret123"
      (@SecurityModel.get_password_hash Sample.crypto "salt" "secret123") = true.
Proof.
  split; [reflexivity|].
  apply (proj1 (@verify_password_get_password_hash Sample.crypto "secret123")).
  reflexivity.
Defined.

Lemma decode_token_total_and_expiry_witness :
  0 ≤ 28800
  ∧ @SecurityModel.decode_token Sample.crypto 1700000100
      (@SecurityModel.issue Sample.crypto 1700000100 Sample.alice_id "access" 28800)
    = Some (TokenPayload.mk (Some Sample.alice_id) (Some 1700028900) (Some "access")).
Proof.
  assert (0 ≤ 28800) as Httl by lia.
  split; [exact Httl|].
  exact (proj1 (proj2 (proj2 (proj2 (proj2 (proj2
           (@decode_token_total_and_expiry Sample.crypto)))))
           1700000100 Sample.alice_id "access" 28800 Httl)).
Defined.

(** ** The authentication service *)

Section Login.
Context `{Security}.

Lemma login_cases (credentials : UserLogin.t) (db : Table) :
  db_ok db →
  let outcome := (get_db [] (login credentials) db).1 in
  let rejected :=
      (∀ u, u ∈ db → User.username u ≠ UserLogin.username credentials)
    ∨ (∃ u, u ∈ db ∧ User.username u = UserLogin.username credentials
            ∧ (verify_password (UserLogin.password credentials)
                 (User.hashed_password u) = false
               ∨ User.is_active u = false)) in
  (Unauthorized outcome ∧ rejected)
  ∨ (¬ rejected ∧ ∃ u, u ∈ db
       ∧ User.username u = UserLogin.username credentials
       ∧ outcome = Ok {|
           Token.access_token := create_access_token (TokenPayload.of_sub (User.id u));
           Token.refresh_token := create_refresh_token (TokenPayload.of_sub (User.id u));
           Token.token_type := "bearer" |}).
Proof.
  intros (_ & Hname & _ & _) outcome rejected. subst outcome rejected.
  unfold login.
  destruct (select_unique User.username (UserLogin.username credentials) db Hname)
    as [[E Hno]|(u & E & Hin & Hk)].
  { left. split; [run; rewrite E; by eexists|by left]. }
  destruct (verify_password (UserLogin.password credentials)
              (User.hashed_password u)) eqn:Hpw.
  2:{ left. split; [run; rewrite E; cbn; rewrite Hpw; by eexists|].
      right. exists u. eauto. }
  destruct (User.is_active u) eqn:Hact.
  2:{ left. split; [run; rewrite E; cbn; rewrite Hpw, Hact; by eexists|].
      right. exists u. eauto. }
  right. split.
  - intros [Hno|(v & Hv & Hkv & Hbad)]; [by apply (Hno u)|].
    assert (v = u) as -> by (apply (key_inj User.username db); congruence).
    destruct Hbad; congruence.
  - exists u. split_and!; [done..|].
    run. rewrite E. cbn. by rewrite Hpw, Hact.
Qed.

End Login.

Section Refresh.
Context `{Security}.

Lemma refresh_cases (refresh_data : RefreshTokenRequest.t) (db : Table) :
  db_ok db →
  let outcome := (get_db [] (refresh_access_token refresh_data) db).1 in
  let payload := decode_token (RefreshTokenRequest.refresh_token refresh_data) in
  let rejected :=
      payload = None
    ∨ (∃ p, payload = Some p ∧ TokenPayload.type p ≠ Some "refresh")
    ∨ (∃ p, payload = Some p ∧ TokenPayload.sub p = None)
    ∨ (∃ p s, payload = Some p ∧ TokenPayload.sub p = Some s
              ∧ ∀ u, u ∈ db → User.id u ≠ s)
    ∨ (∃ p s u, payload = Some p ∧ TokenPayload.sub p = Some s
                ∧ u ∈ db ∧ User.id u = s ∧ User.is_active u = false) in
  (Unauthorized outcome ∧ rejected)
  ∨ (¬ rejected ∧ ∃ p u, payload = Some p ∧ u ∈ db
       ∧ TokenPayload.sub p = Some (User.id u)
       ∧ outcome = Ok {|
           Token.access_token := create_access_token (TokenPayload.of_sub (User.id u));
           Token.refresh_token := create_refresh_token (TokenPayload.of_sub (User.id u));
           Token.token_type := "bearer" |}).
Proof.
  intros (Hid & _ & _ & Hne) outcome payload rejected.
  subst outcome rejected payload. unfold refresh_access_token.
  destruct (decode_token _) as [p|]; cbn [truthy_payload].
  2:{ left. split; [by eexists|by left]. }
  case_bool_decide as Hemp.
  { left. split; [by eexists|]. right; left. exists p. by subst p. }
  unfold verify_token_type. case_bool_decide as Hty; cbn [negb].
  2:{ left. split; [by eexists|]. right; left. by exists p. }
  destruct (TokenPayload.sub p) as [s|] eqn:Hsub; cbn [truthy_str].
  2:{ left. split; [by eexists|]. do 2 right; left. by exists p. }
  destruct (String.eqb s "") eqn:Hs.
  { apply String.eqb_eq in Hs as ->. left. split; [by eexists|].
    do 3 right; left. exists p, "". split_and!; [done..|].
    intros u Hu. by eapply Forall_forall in Hne. }
  destruct (select_unique User.id s db Hid) as [[E Hno]|(u & E & Hin & Hk)].
  { left. split; [run; rewrite E; by eexists|].
    do 3 right; left. by exists p, s. }
  destruct (User.is_active u) eqn:Hact.
  - right. split.
    + intros [?|[(p0&?&?)|[(p0&?&?)|
        [(p0&s0&?&?&Hno)|(p0&s0&u0&?&?&Hin0&Hk0&Hact0)]]]];
        simplify_eq; try congruence.
      * by apply (Hno u).
      * assert (u0 = u) as -> by by apply (key_inj User.id db).
        congruence.
    + exists p, u. split_and!; [done..|by rewrite Hk|].
      run. rewrite E. cbn. by rewrite Hact.
  - left. split.
    + run. rewrite E. cbn. rewrite Hact. by eexists.
    + do 4 right. by exists p, s, u.
Qed.

(** Neither operation writes: the session is left as it was opened. *)
Lemma refresh_reads (refresh_data : RefreshTokenRequest.t) (db : Table) :
  (get_db [] (refresh_access_token refresh_data) db).2 = mkSession db [] [].
Proof.
  unfold get_db, refresh_access_token, bind, execute_select,
    scalar_one_or_none, commit, rollback, await, ret, raise; cbn.
  repeat (case_match; simplify_eq/=; try done).
Qed.

Lemma login_reads (credentials : UserLogin.t) (db : Table) :
  (get_db [] (login credentials) db).2 = mkSession db [] [].
Proof.
  unfold get_db, login, bind, execute_select,
    scalar_one_or_none, commit, rollback, await, ret, raise; cbn.
  repeat (case_match; simplify_eq/=; try done).
Qed.

End Refresh.

Section ModelTokens.
Context `{Crypto}.

Lemma decode_create_access_token (now : Z) (data : TokenPayload.t) (subject : string) :
  TokenPayload.sub data = Some subject →
  SecurityModel.decode_token now (SecurityModel.create_access_token now data)
  = Some (TokenPayload.mk (Some subject)
            (Some (now + settings.ACCESS_TOKEN_EXPIRE_MINUTES * 60)) (Some "access")).
Proof.
  intros Hs.
  unfold SecurityModel.decode_token, SecurityModel.create_access_token,
    SecurityModel.create_token.
  rewrite check_token_sign, Hs. cbn.
  by replace (now + settings.ACCESS_TOKEN_EXPIRE_MINUTES * 60 <? now)
    with false by (unfold settings.ACCESS_TOKEN_EXPIRE_MINUTES; lia).
Qed.

Lemma decode_create_refresh_token (now : Z) (data : TokenPayload.t) (subject : string) :
  TokenPayload.sub data = Some subject →
  SecurityModel.decode_token now (SecurityModel.create_refresh_token now data)
  = Some (TokenPayload.mk (Some subject)
            (Some (now + settings.REFRESH_TOKEN_EXPIRE_DAYS * 86400)) (Some "refresh")).
Proof.
  intros Hs.
  unfold SecurityModel.decode_token, SecurityModel.create_refresh_token,
    SecurityModel.create_token.
  rewrite check_token_sign, Hs. cbn.
  by replace (now + settings.REFRESH_TOKEN_EXPIRE_DAYS * 86400 <? now)
    with false by (unfold settings.REFRESH_TOKEN_EXPIRE_DAYS; lia).
Qed.

End ModelTokens.

(** C2.  Under the constraints of the [users] table, [login] answers 401
    exactly when no user has the username, or the password does not verify
    against the stored hash, or the user is inactive; otherwise it returns an
    access and a refresh token made for that user's identifier.  With the
    model of the codec, both tokens decode at the time of the login to claims
    whose subject is that identifier, with the expiry of a token minted at
    that time. *)
Theorem login_outcomes :
  (∀ (sec : Security) credentials db,
      db_ok db →
      let outcome := (get_db [] (login credentials) db).1 in
      let rejected :=
          (∀ u, u ∈ db → User.username u ≠ UserLogin.username credentials)
        ∨ (∃ u, u ∈ db ∧ User.username u = UserLogin.username credentials
                ∧ (verify_password (UserLogin.password credentials)
                     (User.hashed_password u) = false
                   ∨ User.is_active u = false)) in
      (Unauthorized outcome ↔ rejected)
      ∧ (¬ rejected → ∃ u, u ∈ db
           ∧ User.username u = UserLogin.username credentials
           ∧ outcome = Ok {|
               Token.access_token := create_access_token (TokenPayload.of_sub (User.id u));
               Token.refresh_token := create_refresh_token (TokenPayload.of_sub (User.id u));
               Token.token_type := "bearer" |}))
  ∧ (∀ (crypto : Crypto) now salt credentials db tokens,
      db_ok db →
      (get_db [] (@login (security_model now salt) credentials) db).1 = Ok tokens →
      ∃ u, u ∈ db
        ∧ User.username u = UserLogin.username credentials
        ∧ SecurityModel.decode_token now (Token.access_token tokens)
          = Some (TokenPayload.mk (Some (User.id u))
                    (Some (now + settings.ACCESS_TOKEN_EXPIRE_MINUTES * 60))
                    (Some "access"))
        ∧ SecurityModel.decode_token now (Token.refresh_token tokens)
          = Some (TokenPayload.mk (Some (User.id u))
                    (Some (now + settings.REFRESH_TOKEN_EXPIRE_DAYS * 86400))
                    (Some "refresh"))).
Proof.
  split.
  - intros sec credentials db Hok. cbv zeta.
    pose proof (login_cases credentials db Hok) as Hc. cbv zeta in Hc.
    destruct Hc as [[Hout Hrej]|[Hacc Hout]].
    + split; [done|]. by intros [].
    + split; [|done]. split; [|done].
      intros [d Hd]. destruct Hout as (u & _ & _ & Hu). congruence.
  - intros crypto now salt credentials db tokens Hok Hrun.
    destruct (@login_cases (security_model now salt) credentials db Hok)
      as [[[d Hd] _]|[_ (u & Hin & Hname & Hu)]]; [congruence|].
    rewrite Hrun in Hu. injection Hu as ->.
    exists u. split_and!; [done..| |]; cbn.
    + by apply decode_create_access_token.
    + by apply decode_create_refresh_token.
Qed.

(** C3.  Under the constraints of the [users] table, [refresh] answers 401
    exactly when [decode_token] rejects the token, or its type claim is not
    "refresh", or it has no "sub" claim, or the user it names does not exist
    or is inactive; otherwise it returns a new access and refresh token for
    that subject.  It writes nothing.  With the model of the codec, the new
    tokens decode to that subject, and the refresh token that was presented
    is accepted again at every time up to its own expiry. *)
Theorem refresh_outcomes :
  (∀ (sec : Security) refresh_data db,
      db_ok db →
      let outcome := (get_db [] (refresh_access_token refresh_data) db).1 in
      let payload := decode_token (RefreshTokenRequest.refresh_token refresh_data) in
      let rejected :=
          payload = None
        ∨ (∃ p, payload = Some p ∧ TokenPayload.type p ≠ Some "refresh")
        ∨ (∃ p, payload = Some p ∧ TokenPayload.sub p = None)
        ∨ (∃ p s, payload = Some p ∧ TokenPayload.sub p = Some s
                  ∧ ∀ u, u ∈ db → User.id u ≠ s)
        ∨ (∃ p s u, payload = Some p ∧ TokenPayload.sub p = Some s
                    ∧ u ∈ db ∧ User.id u = s ∧ User.is_active u = false) in
      (Unauthorized outcome ↔ rejected)
      ∧ (¬ rejected → ∃ p u, payload = Some p ∧ u ∈ db
           ∧ TokenPayload.sub p = Some (User.id u)
           ∧ outcome = Ok {|
               Token.access_token := create_access_token (TokenPayload.of_sub (User.id u));
               Token.refresh_token := create_refresh_token (TokenPayload.of_sub (User.id u));
               Token.token_type := "bearer" |})
      ∧ (get_db [] (refresh_access_token refresh_data) db).2 = mkSession db [] [])
  ∧ (∀ (crypto : Crypto) now salt refresh_data db tokens,
      db_ok db →
      (get_db [] (@refresh_access_token (security_model now salt) refresh_data) db).1
        = Ok tokens →
      ∃ claims subject exp,
        SecurityModel.decode_token now (RefreshTokenRequest.refresh_token refresh_data)
          = Some claims
        ∧ TokenPayload.sub claims = Some subject
        ∧ TokenPayload.exp claims = Some exp
        ∧ SecurityModel.decode_token now (Token.access_token tokens)
          = Some (TokenPayload.mk (Some subject)
                    (Some (now + settings.ACCESS_TOKEN_EXPIRE_MINUTES * 60))
                    (Some "access"))
        ∧ SecurityModel.decode_token now (Token.refresh_token tokens)
          = Some (TokenPayload.mk (Some subject)
                    (Some (now + settings.REFRESH_TOKEN_EXPIRE_DAYS * 86400))
                    (Some "refresh"))
        ∧ ∀ now' salt', now' ≤ exp →
            let db' := store (get_db [] (@refresh_access_token (security_model now salt)
                                          refresh_data) db).2 in
            ∃ tokens',
              (get_db [] (@refresh_access_token (security_model now' salt')
                            refresh_data) db').1 = Ok tokens').
Proof.
  split.
  - intros sec refresh_data db Hok. cbv zeta.
    pose proof (refresh_cases refresh_data db Hok) as Hc. cbv zeta in Hc.
    destruct Hc as [[Hout Hrej]|[Hacc Hout]].
    + split_and!; [done|by intros []|apply refresh_reads].
    + split_and!; [|done|apply refresh_reads]. split; [|done].
      intros [d Hd]. destruct Hout as (p & u & _ & _ & _ & Hu). congruence.
  - intros crypto now salt refresh_data db tokens Hok Hrun.
    destruct (@refresh_cases (security_model now salt) refresh_data db Hok)
      as [[[d Hd] _]|[Hacc (p & u & Hp & Hin & Hsub & Hu)]]; [congruence|].
    rewrite Hrun in Hu. injection Hu as ->.
    cbn [decode_token security_model] in Hp, Hacc.
    destruct (decode_token_until now _ p Hp) as (e & He & Hle & Hlater).
    exists p, (User.id u), e. split_and!; [done..| | |]; cbn.
    + by apply decode_create_access_token.
    + by apply decode_create_refresh_token.
    + intros now' salt' Hnow'. rewrite refresh_reads. cbn [store].
      destruct (@refresh_cases (security_model now' salt') refresh_data db Hok)
        as [[_ Hrej]|[_ (p' & u' & _ & _ & _ & Hu')]]; [|by eexists].
      cbn [decode_token security_model] in Hrej.
      rewrite (Hlater now' Hnow') in Hrej. rewrite Hp in Hacc.
      by destruct Hacc.
Qed.

(** ** Registration *)

Section Register.
Context `{Security}.

Lemma violates_false (u : User.t) (table : Table) :
  User.id u ∉ User.id <$> table →
  User.username u ∉ User.username <$> table →
  User.email u ∉ User.email <$> table →
  violates u table = false.
Proof.
  intros Hi Hn He. unfold violates.
  by rewrite !bool_decide_eq_false_2.
Qed.

Lemma violates_true (u : User.t) (table : Table) :
  User.id u ∈ User.id <$> table
  ∨ User.username u ∈ User.username <$> table
  ∨ User.email u ∈ User.email <$> table →
  violates u table = true.
Proof.
  unfold violates. intros [Hi|[Hn|He]].
  - by rewrite (bool_decide_eq_true_2 _ Hi).
  - rewrite (bool_decide_eq_true_2 _ Hn). apply orb_true_iff. left.
    apply orb_true_r.
  - rewrite (bool_decide_eq_true_2 _ He). apply orb_true_r.
Qed.

Lemma not_in_column {K} (key : User.t → K) (x : K) (table : Table) :
  (∀ u, u ∈ table → key u ≠ x) → x ∉ key <$> table.
Proof.
  intros Hno Hin. apply list_elem_of_fmap in Hin as (u & -> & Hu).
  by apply (Hno u).
Qed.

(** The username check comes first and decides alone. *)
Lemma register_username_taken new_id now user_data (db : Table) :
  NoDup (User.username <$> db) →
  (∃ u, u ∈ db ∧ User.username u = UserCreate.username user_data) →
  get_db [] (register new_id now user_data) db
  = (Raise (ConflictException "Username already registered"), mkSession db [] []).
Proof.
  intros Hnd (u & Hu & Hk). unfold register. run.
  by rewrite (select_one User.username _ db u Hnd Hu Hk).
Qed.

Lemma register_email_taken new_id now user_data (db : Table) :
  NoDup (User.email <$> db) →
  (∀ u, u ∈ db → User.username u ≠ UserCreate.username user_data) →
  (∃ u, u ∈ db ∧ User.email u = UserCreate.email user_data) →
  get_db [] (register new_id now user_data) db
  = (Raise (ConflictException "Email already registered"), mkSession db [] []).
Proof.
  intros Hnd Hno (u & Hu & Hk). unfold register. run.
  rewrite (select_none User.username _ db Hno). cbn.
  by rewrite (select_one User.email _ db u Hnd Hu Hk).
Qed.

(** A registration that collides with nothing inserts its row and returns
    it. *)
Lemma register_fresh new_id now user_data (db : Table) :
  new_id ∉ User.id <$> db →
  (∀ u, u ∈ db → User.username u ≠ UserCreate.username user_data) →
  (∀ u, u ∈ db → User.email u ≠ UserCreate.email user_data) →
  ∃ new_user,
    get_db [] (register new_id now user_data) db
    = (Ok new_user, mkSession (db ++ [new_user]) [] [])
    ∧ User.id new_user = new_id
    ∧ User.username new_user = UserCreate.username user_data
    ∧ User.email new_user = UserCreate.email user_data
    ∧ User.hashed_password new_user
      = get_password_hash (UserCreate.password user_data)
    ∧ User.is_active new_user = true.
Proof.
  intros Hid Hname Hmail. eexists. split; [|shelve].
  { unfold register. run.
    rewrite (select_none User.username _ db Hname). cbn.
    rewrite (select_none User.email _ db Hmail). cbn.
    rewrite violates_false; cbn; [|done|by apply not_in_column..].
    rewrite filter_app, select_none, filter_cons_True, filter_nil by
      (try done; intros u Hu E; apply Hid; rewrite <- E;
       by apply list_elem_of_fmap_2).
    reflexivity. }
  Unshelve. done.
Qed.

End Register.

(** C4.  Under the constraints of the [users] table, a registration whose
    username or whose email is already present is answered 409 and leaves the
    table as it was; the username is looked up first, so when it is taken the
    conflict reported is the username's, whatever the email.  Hence of two
    registrations with the same username, served one after the other, the
    first (when it collides with nothing) succeeds and the second is answered
    409, whatever its email. *)
Theorem register_conflicts :
  (∀ (sec : Security) new_id now user_data db,
      db_ok db →
      let run := get_db [] (register new_id now user_data) db in
      ((∃ u, u ∈ db ∧ User.username u = UserCreate.username user_data)
       ∨ (∃ u, u ∈ db ∧ User.email u = UserCreate.email user_data) →
       Conflict run.1 ∧ run.2 = mkSession db [] [])
      ∧ ((∃ u, u ∈ db ∧ User.username u = UserCreate.username user_data) →
         run.1 = Raise (ConflictException "Username already registered"))
      ∧ ((∀ u, u ∈ db → User.username u ≠ UserCreate.username user_data) →
         (∃ u, u ∈ db ∧ User.email u = UserCreate.email user_data) →
         run.1 = Raise (ConflictException "Email already registered")))
  ∧ (∀ (sec sec' : Security) id1 id2 now1 now2 data1 data2 db,
      db_ok db →
      UserCreate.username data1 = UserCreate.username data2 →
      id1 ∉ User.id <$> db →
      (∀ u, u ∈ db → User.username u ≠ UserCreate.username data1) →
      (∀ u, u ∈ db → User.email u ≠ UserCreate.email data1) →
      ∃ user1,
        get_db [] (@register sec id1 now1 data1) db
        = (Ok user1, mkSession (db ++ [user1]) [] [])
        ∧ Conflict (get_db [] (@register sec' id2 now2 data2) (db ++ [user1])).1
        ∧ (get_db [] (@register sec' id2 now2 data2) (db ++ [user1])).2
          = mkSession (db ++ [user1]) [] []).
Proof.
  split.
  - intros sec new_id now user_data db (_ & Hname & Hmail & _). cbv zeta.
    assert (∀ u, u ∈ db ∧ User.username u = UserCreate.username user_data →
              get_db [] (register new_id now user_data) db
              = (Raise (ConflictException "Username already registered"),
                 mkSession db [] [])) as Hu.
    { intros u Hin. apply register_username_taken; eauto. }
    assert ((∀ u, u ∈ db → User.username u ≠ UserCreate.username user_data) →
            ∀ u, u ∈ db ∧ User.email u = UserCreate.email user_data →
              get_db [] (register new_id now user_data) db
              = (Raise (ConflictException "Email already registered"),
                 mkSession db [] [])) as He.
    { intros Hno u Hin. apply register_email_taken; eauto. }
    split_and!.
    + intros [[u Hin]|[u Hin]].
      * rewrite (Hu u Hin). split; [by eexists|done].
      * destruct (select_unique User.username (UserCreate.username user_data)
                    db Hname) as [[_ Hno]|(v & _ & Hv & Hk)].
        -- rewrite (He Hno u Hin). split; [by eexists|done].
        -- rewrite (Hu v (conj Hv Hk)). split; [by eexists|done].
    + intros [u Hin]. by rewrite (Hu u Hin).
    + intros Hno [u Hin]. by rewrite (He Hno u Hin).
  - intros sec sec' id1 id2 now1 now2 data1 data2 db (_ & Hname & _ & _)
      Hsame Hid Hnoname Hnomail.
    destruct (@register_fresh sec id1 now1 data1 db Hid Hnoname Hnomail)
      as (user1 & Hrun & _ & Hn1 & _).
    exists user1. split; [done|].
    rewrite (@register_username_taken sec' id2 now2 data2 (db ++ [user1])).
    + split; [by eexists|done].
    + rewrite fmap_app. apply NoDup_app. split_and!; [done| |apply NoDup_singleton].
      intros x Hx Hx'. cbn in Hx'. apply list_elem_of_singleton in Hx'. subst x.
      apply list_elem_of_fmap in Hx as (u & E & Hu).
      apply (Hnoname u Hu). congruence.
    + exists user1. split; [|congruence].
      apply elem_of_app. right. by apply list_elem_of_singleton.
Qed.

(** The store's verdict is not translated: when both look-ups of a
    registration find nothing and the store then rejects the insert, because
    a concurrent transaction committed a colliding row in between, the
    [IntegrityError] of the commit leaves the handler, and the unit of work
    rolls the session back and raises it again. *)
Lemma register_race (sec : Security) new_id now user_data (db : Table)
    (landed1 landed2 landed3 : list User.t) :
  let db1 := land landed1 db in
  let db2 := land landed2 db1 in
  let db3 := land landed3 db2 in
  filter (λ u, User.username u = UserCreate.username user_data) db1 = [] →
  filter (λ u, User.email u = UserCreate.email user_data) db2 = [] →
  new_id ∈ User.id <$> db3
  ∨ UserCreate.username user_data ∈ User.username <$> db3
  ∨ UserCreate.email user_data ∈ User.email <$> db3 →
  get_db [landed1; landed2; landed3] (register new_id now user_data) db
  = (Raise IntegrityError, mkSession db3 [] []).
Proof.
  intros db1 db2 db3 Hname Hmail Hhit. unfold register. run.
  fold db1. rewrite Hname. cbn.
  fold db2. rewrite Hmail. cbn.
  fold db3. by rewrite violates_true.
Qed.

(** C7, as the code has it.  When the look-ups of a registration find neither
    the username nor the email and the store rejects the insert at commit
    time, the transaction is rolled back, no row of the request is stored,
    and the store's [IntegrityError] is raised again as it is: the answer is
    a 500, not a 409. *)
Theorem register_commit_rejection (sec : Security) new_id now user_data (db : Table)
    (landed1 landed2 landed3 : list User.t) :
  let db1 := land landed1 db in
  let db2 := land landed2 db1 in
  let db3 := land landed3 db2 in
  let run := get_db [landed1; landed2; landed3] (register new_id now user_data) db in
  filter (λ u, User.username u = UserCreate.username user_data) db1 = [] →
  filter (λ u, User.email u = UserCreate.email user_data) db2 = [] →
  new_id ∈ User.id <$> db3
  ∨ UserCreate.username user_data ∈ User.username <$> db3
  ∨ UserCreate.email user_data ∈ User.email <$> db3 →
  run.1 = Raise IntegrityError
  ∧ run.2 = mkSession db3 [] []
  ∧ status_code_of 201 run.1 = HTTP_500_INTERNAL_SERVER_ERROR
  ∧ ¬ Conflict run.1.
Proof.
  intros db1 db2 db3 run Hname Hmail Hhit. subst run.
  rewrite (register_race sec new_id now user_data db _ _ _ Hname Hmail Hhit).
  split_and!; [done..|]. by intros [d ?].
Qed.

(** The claim that such a rejection is answered 409 fails: two registrations
    of the username "alice" race on an empty table, the look-ups of the first
    run before the second commits, its commit after. *)
Lemma register_race_not_conflict :
  ¬ (∀ (sec : Security) new_id now user_data (db : Table) landed1 landed2 landed3,
        let db1 := land landed1 db in
        let db2 := land landed2 db1 in
        let db3 := land landed3 db2 in
        let run := get_db [landed1; landed2; landed3]
                     (register new_id now user_data) db in
        filter (λ u, User.username u = UserCreate.username user_data) db1 = [] →
        filter (λ u, User.email u = UserCreate.email user_data) db2 = [] →
        new_id ∈ User.id <$> db3
        ∨ UserCreate.username user_data ∈ User.username <$> db3
        ∨ UserCreate.email user_data ∈ User.email <$> db3 →
        Conflict run.1 ∧ status_code_of 201 run.1 = HTTP_409_CONFLICT).
Proof.
  intros Hclaim.
  specialize (Hclaim Sample.security Sample.alice_id Sample.now Sample.alice_data
                [] [] [] [Sample.racing_row] eq_refl eq_refl).
  destruct Hclaim as [_ Hstatus].
  - right; left. by left.
  - vm_compute in Hstatus. discriminate Hstatus.
Qed.

(** ** The statements on the sample data *)

Lemma login_outcomes_witness :
  db_ok Sample.db
  ∧ (get_db [] (@login Sample.security Sample.credentials) Sample.db).1
    = Ok Sample.alice_tokens
  ∧ ∃ u, u ∈ Sample.db
      ∧ User.username u = "alice"
      ∧ @SecurityModel.decode_token Sample.crypto Sample.now
          (Token.access_token Sample.alice_tokens)
        = Some (TokenPayload.mk (Some (User.id u)) (Some (Sample.now + 480 * 60))
                  (Some "access"))
      ∧ @SecurityModel.decode_token Sample.crypto Sample.now
          (Token.refresh_token Sample.alice_tokens)
        = Some (TokenPayload.mk (Some (User.id u)) (Some (Sample.now + 30 * 86400))
                  (Some "refresh")).
Proof.
  assert ((get_db [] (@login Sample.security Sample.credentials) Sample.db).1
          = Ok Sample.alice_tokens) as Hrun by (vm_compute; reflexivity).
  split_and!; [exact sample_db_ok|exact Hrun|].
  exact (proj2 login_outcomes Sample.crypto Sample.now "salt" Sample.credentials
           Sample.db Sample.alice_tokens sample_db_ok Hrun).
Defined.

Lemma refresh_outcomes_witness :
  let refresh_data :=
    RefreshTokenRequest.mk (Token.refresh_token Sample.alice_tokens) in
  db_ok Sample.db
  ∧ (get_db [] (@refresh_access_token Sample.security refresh_data) Sample.db).1
    = Ok Sample.alice_tokens
  ∧ (get_db [] (@refresh_access_token Sample.security refresh_data) Sample.db).2
    = mkSession Sample.db [] [].
Proof.
  intros refresh_data.
  assert ((get_db [] (@refresh_access_token Sample.security refresh_data) Sample.db).1
          = Ok Sample.alice_tokens) as Hrun by (vm_compute; reflexivity).
  split_and!; [exact sample_db_ok|exact Hrun|].
  exact (proj2 (proj2 (proj1 refresh_outcomes Sample.security refresh_data
                         Sample.db sample_db_ok))).
Defined.

Lemma token_types_not_interchangeable_witness :
  let authorization := Some ("Bearer " +:+ Token.refresh_token Sample.alice_tokens) in
  let claims := TokenPayload.mk (Some Sample.alice_id)
                  (Some (Sample.now + 30 * 86400)) (Some "refresh") in
  @decode_token Sample.security (bearer_token (default "" authorization)) = Some claims
  ∧ TokenPayload.type claims = Some "refresh"
  ∧ Unauthorized
      (get_db [] (@get_current_user Sample.security Sample.uuid authorization)
         Sample.db).1.
Proof.
  intros authorization claims.
  assert (@decode_token Sample.security (bearer_token (default "" authorization))
          = Some claims) as Hdec by (vm_compute; reflexivity).
  split_and!; [exact Hdec|reflexivity|].
  exact (proj1 (proj1 (@token_types_not_interchangeable Sample.security Sample.uuid)
                  authorization Sample.db claims Hdec eq_refl)).
Defined.

Lemma register_conflicts_witness :
  db_ok Sample.db
  ∧ (∃ u, u ∈ Sample.db ∧ User.username u = UserCreate.username Sample.alice2_data)
  ∧ (get_db [] (@register Sample.security Sample.bob_id Sample.now Sample.alice2_data)
       Sample.db).1
    = Raise (ConflictException "Username already registered").
Proof.
  assert (∃ u, u ∈ Sample.db
               ∧ User.username u = UserCreate.username Sample.alice2_data) as Htaken.
  { exists Sample.alice. split; [by left|reflexivity]. }
  split_and!; [exact sample_db_ok|exact Htaken|].
  exact (proj1 (proj2 (proj1 register_conflicts Sample.security Sample.bob_id
                         Sample.now Sample.alice2_data Sample.db sample_db_ok))
           Htaken).
Defined.

Lemma register_commit_rejection_witness :
  let run := get_db [[]; []; [Sample.racing_row]]
               (@register Sample.security Sample.alice_id Sample.now Sample.alice_data)
               [] in
  UserCreate.username Sample.alice_data ∈ User.username <$> [Sample.racing_row]
  ∧ run.1 = Raise IntegrityError
  ∧ run.2 = mkSession [Sample.racing_row] [] []
  ∧ status_code_of 201 run.1 = HTTP_500_INTERNAL_SERVER_ERROR.
Proof.
  intros run.
  assert (UserCreate.username Sample.alice_data
            ∈ User.username <$> [Sample.racing_row]) as Hhit by by left.
  split; [exact Hhit|].
  pose proof (register_commit_rejection Sample.security Sample.alice_id Sample.now
                Sample.alice_data [] [] [] [Sample.racing_row] eq_refl eq_refl
                (or_intror (or_introl Hhit))) as (H1 & H2 & H3 & _).
  exact (conj H1 (conj H2 H3)).
Defined.

(** ** The constraints of the table are an invariant of registration *)

Lemma db_ok_empty : db_ok [].
Proof. unfold db_ok. split_and!; constructor. Qed.

Lemma NoDup_snoc_column {K} (key : User.t → K) (table : Table) (u : User.t) :
  NoDup (key <$> table) → key u ∉ key <$> table →
  NoDup (key <$> (table ++ [u])%list).
Proof.
  intros Hnd Hout. rewrite fmap_app. apply NoDup_app.
  split_and!; [done| |apply NoDup_singleton].
  intros x Hx Hx'. apply list_elem_of_singleton in Hx'. by subst x.
Qed.

(** X2.  Registration keeps the constraints of the users table: on a table
    whose identifiers, usernames and emails are unique and whose identifiers
    are not empty, a [register] request with a non-empty new identifier
    leaves such a table again, whether it succeeds or fails. *)
Lemma register_preserves_db_ok (sec : Security) new_id now user_data (db : Table) :
  db_ok db → new_id ≠ "" →
  db_ok (store (get_db [] (register new_id now user_data) db).2).
Proof.
  intros Hok Hne. pose proof Hok as (Hid & Hname & Hmail & Hids).
  destruct (select_unique User.username (UserCreate.username user_data) db Hname)
    as [[_ Hnoname]|(u & _ & Hu & Hk)].
  2:{ rewrite register_username_taken; [done..|]. by exists u. }
  destruct (select_unique User.email (UserCreate.email user_data) db Hmail)
    as [[_ Hnomail]|(u & _ & Hu & Hk)].
  2:{ rewrite register_email_taken; [done..|]. by exists u. }
  destruct (decide (new_id ∈ User.id <$> db)) as [Hin|Hout].
  - unfold register. run.
    rewrite (select_none User.username _ db Hnoname). cbn.
    rewrite (select_none User.email _ db Hnomail). cbn.
    rewrite violates_true; [done|by left].
  - destruct (register_fresh new_id now user_data db Hout Hnoname Hnomail)
      as (u & -> & Hi & Hn & He & _).
    cbn. unfold db_ok. split_and!.
    + apply NoDup_snoc_column; [done|by rewrite Hi].
    + apply NoDup_snoc_column; [done|]. rewrite Hn. by apply not_in_column.
    + apply NoDup_snoc_column; [done|]. rewrite He. by apply not_in_column.
    + apply Forall_app. split; [done|]. apply Forall_singleton. by rewrite Hi.
Qed.

(** * Further properties of the authentication service *)

(** ** Registration stores the row it returns *)

(** X1.  A registration whose identifier, username and email are not in the
    table answers with the new row and stores exactly that row behind the
    existing ones: the identifier drawn for it, the fields of the request,
    the hash [get_password_hash] made of the password, [is_active] set, and
    both timestamps at the time of the request. *)
Theorem register_success (sec : Security) new_id now user_data (db : Table) :
  new_id ∉ User.id <$> db →
  UserCreate.username user_data ∉ User.username <$> db →
  UserCreate.email user_data ∉ User.email <$> db →
  let new_user := {|
    User.id := new_id;
    User.email := UserCreate.email user_data;
    User.username := UserCreate.username user_data;
    User.hashed_password := get_password_hash (UserCreate.password user_data);
    User.first_name := UserCreate.first_name user_data;
    User.last_name := UserCreate.last_name user_data;
    User.role := UserCreate.role user_data;
    User.is_active := true;
    User.phone_number := UserCreate.phone_number user_data;
    User.created_at := now;
    User.updated_at := now
  |} in
  get_db [] (register new_id now user_data) db
  = (Ok new_user, mkSession (db ++ [new_user]) [] []).
Proof.
  intros Hid Hname Hmail new_user.
  assert (∀ u, u ∈ db → User.username u ≠ UserCreate.username user_data) as Hn.
  { intros u Hu E. apply Hname. rewrite <- E. by apply list_elem_of_fmap_2. }
  assert (∀ u, u ∈ db → User.email u ≠ UserCreate.email user_data) as He.
  { intros u Hu E. apply Hmail. rewrite <- E. by apply list_elem_of_fmap_2. }
  unfold register. run.
  rewrite (select_none User.username _ db Hn). cbn.
  rewrite (select_none User.email _ db He). cbn.
  rewrite violates_false by done. cbn.
  rewrite filter_app, select_none, filter_cons_True, filter_nil by
    (try done; intros u Hu E; apply Hid; rewrite <- E;
     by apply list_elem_of_fmap_2).
  reflexivity.
Qed.

Lemma register_success_witness :
  (Fixtures.carol_id ∉ User.id <$> Sample.db)
  ∧ (UserCreate.username Fixtures.carol_data ∉ User.username <$> Sample.db)
  ∧ (UserCreate.email Fixtures.carol_data ∉ User.email <$> Sample.db)
  ∧ store (get_db [] (@register Sample.security Fixtures.carol_id Sample.now
                        Fixtures.carol_data) Sample.db).2
    = (Sample.db ++ [ {|
        User.id := Fixtures.carol_id;
        User.email := "carol@x.com";
        User.username := "carol";
        User.hashed_password :=
          @SecurityModel.get_password_hash Sample.crypto "salt" "correct horse";
        User.first_name := "Carol";
        User.last_name := "C";
        User.role := ADMIN;
        User.is_active := true;
        User.phone_number := Some "555-0101";
        User.created_at := Sample.now;
        User.updated_at := Sample.now |} ])%list.
Proof.
  assert (Fixtures.carol_id ∉ User.id <$> Sample.db) as Hid
    by (apply (bool_decide_unpack _); vm_compute; exact I).
  assert (UserCreate.username Fixtures.carol_data ∉ User.username <$> Sample.db)
    as Hname by (apply (bool_decide_unpack _); vm_compute; exact I).
  assert (UserCreate.email Fixtures.carol_data ∉ User.email <$> Sample.db)
    as Hmail by (apply (bool_decide_unpack _); vm_compute; exact I).
  split_and!; [exact Hid|exact Hname|exact Hmail|].
  exact (f_equal (λ r, store r.2)
           (register_success Sample.security Fixtures.carol_id Sample.now
              Fixtures.carol_data Sample.db Hid Hname Hmail)).
Defined.

Lemma register_preserves_db_ok_witness :
  db_ok Sample.db
  ∧ Fixtures.carol_id ≠ ""
  ∧ db_ok (store (get_db [] (@register Sample.security Fixtures.carol_id Sample.now
                               Fixtures.carol_data) Sample.db).2).
Proof.
  assert (Fixtures.carol_id ≠ "") as Hne by discriminate.
  split_and!; [exact sample_db_ok|exact Hne|].
  exact (register_preserves_db_ok Sample.security Fixtures.carol_id Sample.now
           Fixtures.carol_data Sample.db sample_db_ok Hne).
Defined.

(** ** How the operations compose *)

Lemma select_snoc_fresh {K} `{EqDecision K} (key : User.t → K) (table : Table)
    (u : User.t) :
  key u ∉ key <$> table →
  filter (λ r, key r = key u) (table ++ [u])%list = [u].
Proof.
  intros Hout. rewrite filter_app, select_none, filter_cons_True, filter_nil; try done.
  intros r Hr E. apply Hout. rewrite <- E. by apply list_elem_of_fmap_2.
Qed.

Lemma column_fresh {K} (key : User.t → K) (x : K) (table : Table) :
  x ∉ key <$> table → ∀ u, u ∈ table → key u ≠ x.
Proof.
  intros Hout u Hu E. apply Hout. rewrite <- E. by apply list_elem_of_fmap_2.
Qed.

(** X3.  After a registration that collided with nothing, a login under the
    registered username is decided by the password alone: it returns tokens
    made for the identifier of the new row when [verify_password] accepts the
    password against the hash stored at registration, and answers 401
    "Incorrect username or password" when it does not. *)
Theorem register_then_login (sec sec' : Security) new_id now user_data
    (db : Table) (password : string) :
  new_id ∉ User.id <$> db →
  UserCreate.username user_data ∉ User.username <$> db →
  UserCreate.email user_data ∉ User.email <$> db →
  let db' := store (get_db [] (@register sec new_id now user_data) db).2 in
  let credentials := UserLogin.mk (UserCreate.username user_data) password in
  let outcome := (get_db [] (@login sec' credentials) db').1 in
  let hashed := @get_password_hash sec (UserCreate.password user_data) in
  (@verify_password sec' password hashed = true →
   outcome = Ok {|
     Token.access_token := @create_access_token sec' (TokenPayload.of_sub new_id);
     Token.refresh_token := @create_refresh_token sec' (TokenPayload.of_sub new_id);
     Token.token_type := "bearer" |})
  ∧ (@verify_password sec' password hashed = false →
     outcome = Raise (UnauthorizedException "Incorrect username or password")).
Proof.
  intros Hid Hname Hmail. cbv zeta.
  destruct (@register_fresh sec new_id now user_data db Hid
              (column_fresh _ _ _ Hname) (column_fresh _ _ _ Hmail))
    as (u & -> & Hi & Hn & _ & Hh & Ha).
  cbn [snd store]. unfold login. run.
  rewrite <- Hn in Hname |- *.
  rewrite (select_snoc_fresh User.username db u Hname).
  cbn. rewrite Hh, Ha, Hi. split; intros ->; reflexivity.
Qed.

Lemma register_then_login_witness :
  let db' := store (get_db [] (@register Sample.security Fixtures.carol_id Sample.now
                                 Fixtures.carol_data) Sample.db).2 in
  (Fixtures.carol_id ∉ User.id <$> Sample.db)
  ∧ (UserCreate.username Fixtures.carol_data ∉ User.username <$> Sample.db)
  ∧ (UserCreate.email Fixtures.carol_data ∉ User.email <$> Sample.db)
  ∧ @verify_password Fixtures.later_security "correct horse"
      (@get_password_hash Sample.security "correct horse") = true
  ∧ (get_db [] (@login Fixtures.later_security
                  (UserLogin.mk "carol" "correct horse")) db').1
    = Ok {|
        Token.access_token :=
          @create_access_token Fixtures.later_security
            (TokenPayload.of_sub Fixtures.carol_id);
        Token.refresh_token :=
          @create_refresh_token Fixtures.later_security
            (TokenPayload.of_sub Fixtures.carol_id);
        Token.token_type := "bearer" |}.
Proof.
  intros db'.
  assert (Fixtures.carol_id ∉ User.id <$> Sample.db) as Hid
    by (apply (bool_decide_unpack _); vm_compute; exact I).
  assert (UserCreate.username Fixtures.carol_data ∉ User.username <$> Sample.db)
    as Hname by (apply (bool_decide_unpack _); vm_compute; exact I).
  assert (UserCreate.email Fixtures.carol_data ∉ User.email <$> Sample.db)
    as Hmail by (apply (bool_decide_unpack _); vm_compute; exact I).
  assert (@verify_password Fixtures.later_security "correct horse"
            (@get_password_hash Sample.security "correct horse") = true) as Hpw
    by (vm_compute; reflexivity).
  split_and!; [exact Hid|exact Hname|exact Hmail|exact Hpw|].
  exact (proj1 (register_then_login Sample.security Fixtures.later_security
                  Fixtures.carol_id Sample.now Fixtures.carol_data Sample.db
                  "correct horse" Hid Hname Hmail) Hpw).
Defined.

Lemma get_db_bind_ret {A} (m : Db A) (db : Table) :
  get_db [] (let* a := m in ret a) db = get_db [] m db.
Proof.
  unfold get_db, bind, ret. by destruct (m _) as [[a|e] s].
Qed.

Section Compose.
Context (sec sec' : Security) (uuid : Uuid).

(** A login that succeeds was made by an active user of the table with the
    username of the credentials, and its tokens were made for that user's
    identifier. *)
Lemma login_ok (credentials : UserLogin.t) (db : Table) (tokens : Token.t) :
  db_ok db →
  (get_db [] (@login sec credentials) db).1 = Ok tokens →
  ∃ u, u ∈ db
    ∧ User.username u = UserLogin.username credentials
    ∧ User.is_active u = true
    ∧ tokens = {|
        Token.access_token := @create_access_token sec (TokenPayload.of_sub (User.id u));
        Token.refresh_token := @create_refresh_token sec (TokenPayload.of_sub (User.id u));
        Token.token_type := "bearer" |}.
Proof.
  intros Hok Hrun.
  pose proof (@login_cases sec credentials db Hok) as Hc. cbv zeta in Hc.
  destruct Hc as [[[d Hd] _]|[Hacc (u & Hin & Hname & Hu)]]; [congruence|].
  exists u. split_and!; [done..| |congruence].
  destruct (User.is_active u) eqn:Hact; [done|].
  destruct Hacc. right. exists u. eauto.
Qed.

(** X4.  The access token of a successful login, sent as "Bearer <token>",
    makes [GET /auth/me] answer with the user who logged in, provided the
    token does not contain "Bearer ", the codec decodes the access tokens it
    makes for the users of the table, and their identifiers parse as
    UUIDs. *)
Theorem login_then_me (credentials : UserLogin.t) (db : Table) (tokens : Token.t) :
  db_ok db →
  (get_db [] (@login sec credentials) db).1 = Ok tokens →
  PyStr.contains "Bearer " (Token.access_token tokens) = false →
  Forall (λ u, UUID (User.id u) = true
               ∧ @decodes_to sec' (@create_access_token sec) "access" u) db →
  ∃ u, u ∈ db
    ∧ User.username u = UserLogin.username credentials
    ∧ get_db [] (@get_current_user_info sec' uuid
                   (Some ("Bearer " +:+ Token.access_token tokens))) db
      = (Ok u, mkSession db [] []).
Proof.
  intros Hok Hrun Hclean Hcodec.
  destruct (login_ok credentials db tokens Hok Hrun)
    as (u & Hin & Hname & Hact & ->).
  exists u. split_and!; [done..|].
  cbn [Token.access_token] in *.
  rewrite Forall_forall in Hcodec. destruct (Hcodec u Hin) as [Huuid Hdec].
  unfold decodes_to in Hdec.
  destruct (@decode_token sec' _) as [p|] eqn:Hp; [|done].
  cbn in Hdec. injection Hdec as Hsub Hty.
  destruct Hok as (Hid & _ & _ & Hne).
  assert (User.id u ≠ "") as Hnonempty by by eapply Forall_forall in Hne.
  unfold get_current_user_info. rewrite get_db_bind_ret.
  rewrite get_current_user_bearer, bearer_token_leading.
  unfold bearer_token. rewrite (replace_absent _ _ _ Hclean), Hp.
  unfold principal_of, truthy_payload, verify_token_type.
  case_bool_decide as Hemp; [by subst p|].
  rewrite Hty, Hsub. rewrite bool_decide_eq_true_2 by done. cbn [negb truthy_str].
  apply String.eqb_neq in Hnonempty. rewrite Hnonempty, Huuid. cbn [negb].
  run. rewrite (select_one User.id _ db u Hid Hin eq_refl). cbn.
  by rewrite Hact.
Qed.

(** X5.  The refresh token of a successful login is accepted by
    [POST /auth/refresh], which answers with a new pair made for the same
    user, provided the codec decodes the refresh tokens it makes for the
    users of the table. *)
Theorem login_then_refresh (credentials : UserLogin.t) (db : Table) (tokens : Token.t) :
  db_ok db →
  (get_db [] (@login sec credentials) db).1 = Ok tokens →
  Forall (@decodes_to sec' (@create_refresh_token sec) "refresh") db →
  ∃ u, u ∈ db
    ∧ User.username u = UserLogin.username credentials
    ∧ get_db [] (@refresh_access_token sec'
                   (RefreshTokenRequest.mk (Token.refresh_token tokens))) db
      = (Ok {|
           Token.access_token := @create_access_token sec' (TokenPayload.of_sub (User.id u));
           Token.refresh_token := @create_refresh_token sec' (TokenPayload.of_sub (User.id u));
           Token.token_type := "bearer" |},
         mkSession db [] []).
Proof.
  intros Hok Hrun Hcodec.
  destruct (login_ok credentials db tokens Hok Hrun)
    as (u & Hin & Hname & Hact & ->).
  exists u. split_and!; [done..|].
  cbn [Token.refresh_token RefreshTokenRequest.refresh_token] in *.
  rewrite Forall_forall in Hcodec. pose proof (Hcodec u Hin) as Hdec.
  unfold decodes_to in Hdec.
  destruct Hok as (Hid & _ & _ & Hne).
  assert (User.id u ≠ "") as Hnonempty by by eapply Forall_forall in Hne.
  unfold refresh_access_token. cbn [RefreshTokenRequest.refresh_token].
  destruct (@decode_token sec' _) as [p|] eqn:Hp; [|done].
  cbn in Hdec. injection Hdec as Hsub Hty.
  unfold truthy_payload, verify_token_type.
  case_bool_decide as Hemp; [by subst p|].
  rewrite Hty, Hsub. rewrite bool_decide_eq_true_2 by done. cbn [negb truthy_str].
  apply String.eqb_neq in Hnonempty. rewrite Hnonempty.
  run. rewrite (select_one User.id _ db u Hid Hin eq_refl). cbn.
  by rewrite Hact.
Qed.

End Compose.

Lemma login_then_me_witness :
  db_ok Sample.db
  ∧ (get_db [] (@login Sample.security Sample.credentials) Sample.db).1
    = Ok Sample.alice_tokens
  ∧ PyStr.contains "Bearer " (Token.access_token Sample.alice_tokens) = false
  ∧ ∃ u, u ∈ Sample.db
      ∧ User.username u = "alice"
      ∧ get_db [] (@get_current_user_info Fixtures.later_security Sample.uuid
                     (Some ("Bearer " +:+ Token.access_token Sample.alice_tokens)))
          Sample.db
        = (Ok u, mkSession Sample.db [] []).
Proof.
  assert ((get_db [] (@login Sample.security Sample.credentials) Sample.db).1
          = Ok Sample.alice_tokens) as Hrun by (vm_compute; reflexivity).
  assert (PyStr.contains "Bearer " (Token.access_token Sample.alice_tokens) = false)
    as Hclean by (vm_compute; reflexivity).
  assert (Forall (λ u, @UUID Sample.uuid (User.id u) = true
                       ∧ @decodes_to Fixtures.later_security
                           (@create_access_token Sample.security) "access" u)
            Sample.db) as Hcodec.
  { unfold Sample.db.
    repeat (apply Forall_cons; split; [split; vm_compute; reflexivity|]).
    constructor. }
  split_and!; [exact sample_db_ok|exact Hrun|exact Hclean|].
  exact (login_then_me Sample.security Fixtures.later_security Sample.uuid
           Sample.credentials Sample.db Sample.alice_tokens
           sample_db_ok Hrun Hclean Hcodec).
Defined.

Lemma login_then_refresh_witness :
  db_ok Sample.db
  ∧ (get_db [] (@login Sample.security Sample.credentials) Sample.db).1
    = Ok Sample.alice_tokens
  ∧ ∃ u, u ∈ Sample.db
      ∧ User.username u = "alice"
      ∧ get_db [] (@refresh_access_token Fixtures.later_security
                     (RefreshTokenRequest.mk (Token.refresh_token Sample.alice_tokens)))
          Sample.db
        = (Ok {|
             Token.access_token :=
               @create_access_token Fixtures.later_security
                 (TokenPayload.of_sub (User.id u));
             Token.refresh_token :=
               @create_refresh_token Fixtures.later_security
                 (TokenPayload.of_sub (User.id u));
             Token.token_type := "bearer" |},
           mkSession Sample.db [] []).
Proof.
  assert ((get_db [] (@login Sample.security Sample.credentials) Sample.db).1
          = Ok Sample.alice_tokens) as Hrun by (vm_compute; reflexivity).
  assert (Forall (@decodes_to Fixtures.later_security
                    (@create_refresh_token Sample.security) "refresh")
            Sample.db) as Hcodec.
  { unfold Sample.db.
    repeat (apply Forall_cons; split; [vm_compute; reflexivity|]).
    constructor. }
  split_and!; [exact sample_db_ok|exact Hrun|].
  exact (login_then_refresh Sample.security Fixtures.later_security
           Sample.credentials Sample.db Sample.alice_tokens
           sample_db_ok Hrun Hcodec).
Defined.

(** ** What the handlers never do *)

(** X6.  [login], [GET /auth/me] and a route behind [require_admin] write
    nothing: whatever they answer, the session ends with the table it was
    opened on and nothing pending. *)
Theorem read_only_handlers (sec : Security) (uuid : Uuid) (db : Table) :
  (∀ credentials, (get_db [] (login credentials) db).2 = mkSession db [] [])
  ∧ (∀ authorization,
       (get_db [] (get_current_user_info authorization) db).2 = mkSession db [] [])
  ∧ (∀ authorization,
       (get_db [] (depends_require_admin authorization) db).2 = mkSession db [] []).
Proof.
  split_and!.
  - intros credentials. apply login_reads.
  - intros a. unfold get_current_user_info. rewrite get_db_bind_ret.
    pose proof (get_current_user_reads a db) as Hs.
    unfold get_db. destruct (get_current_user a _) as [[u|e] s]; cbn in Hs; by subst s.
  - intros a. pose proof (get_current_user_reads a db) as Hs.
    unfold get_db, depends_require_admin, bind.
    destruct (get_current_user a _) as [[u|e] s]; cbn in Hs; subst s; [|done].
    unfold require_admin, raise, ret. by case_bool_decide.
Qed.

(** ** The unit of work *)



(** ** The extraction of the token *)

(** X8.  [authorization.replace("Bearer ", "")] returns its argument
    unchanged exactly when "Bearer " does not occur in it; on every header
    that passes the guard of [get_current_user] the token is therefore at
    least seven characters shorter than the header. *)
Theorem bearer_token_fixed (authorization : string) :
  (bearer_token authorization = authorization
   ↔ PyStr.contains "Bearer " authorization = false)
  ∧ (PyStr.startswith authorization "Bearer " = true →
     (String.length (bearer_token authorization) + 7
      ≤ String.length authorization)%nat).
Proof.
  split.
  - split.
    + intros E. destruct (PyStr.contains "Bearer " authorization) eqn:Hc; [|done].
      pose proof (replace_shrinks "Bearer " authorization ltac:(done) Hc) as Hlt.
      unfold bearer_token in E. rewrite E in Hlt. lia.
    + apply replace_absent.
  - intros Hs. destruct (prefix_split _ _ Hs) as [t ->].
    rewrite bearer_token_leading.
    pose proof (replace_from_length "Bearer " 0 t) as Hle.
    assert (String.length ("Bearer " +:+ t) = (7 + String.length t)%nat) as ->
      by reflexivity.
    unfold bearer_token, PyStr.replace. lia.
Qed.

Lemma bearer_token_fixed_witness :
  PyStr.startswith "Bearer abc.def" "Bearer " = true
  ∧ (String.length (bearer_token "Bearer abc.def") + 7
     ≤ String.length "Bearer abc.def")%nat.
Proof.
  split; [reflexivity|].
  exact (proj2 (bearer_token_fixed "Bearer abc.def") eq_refl).
Defined.


(** * Pagination *)

(** X9.  For a positive [limit] and a non-negative [total],
    [PaginatedResponse.create] returns the items and numbers it was given
    with [total_pages] the ceiling of [total / limit]: the least number of
    pages of [limit] items that hold [total] items, zero exactly when there
    is no item.  For [limit = 0] it raises [ZeroDivisionError]. *)
Theorem create_total_pages {T} (items : list T) (total page limit : Z) :
  (0 < limit → 0 ≤ total →
   ∃ total_pages,
     PaginatedResponse.create items total page limit
     = Some (PaginatedResponse.mk items total page limit total_pages)
     ∧ (total_pages - 1) * limit < total ≤ total_pages * limit
     ∧ (total_pages = 0 ↔ total = 0))
  ∧ PaginatedResponse.create items total page 0 = None.
Proof.
  split; [|done].
  intros Hl Ht. exists ((total + limit - 1) / limit).
  unfold PaginatedResponse.create.
  replace (limit =? 0) with false by lia.
  split; [done|].
  pose proof (Z.div_mod (total + limit - 1) limit ltac:(lia)) as Hdm.
  pose proof (Z.mod_pos_bound (total + limit - 1) limit Hl) as Hm.
  split; [nia|]. split; intros E.
  - rewrite E in Hdm. lia.
  - subst total. apply Z.div_small. lia.
Qed.

Lemma create_total_pages_witness :
  0 < 20 ∧ 0 ≤ 41
  ∧ ∃ total_pages,
      PaginatedResponse.create ["a"; "b"] 41 3 20
      = Some (PaginatedResponse.mk ["a"; "b"] 41 3 20 total_pages)
      ∧ (total_pages - 1) * 20 < 41 ≤ total_pages * 20
      ∧ (total_pages = 0 ↔ 41 = 0).
Proof.
  assert (0 < 20) as Hl by lia. assert (0 ≤ 41) as Ht by lia.
  split_and!; [exact Hl|exact Ht|].
  exact (proj1 (create_total_pages ["a"; "b"] 41 3 20) Hl Ht).
Defined.

(** X10.  [validate_limit] never exceeds [MAX_PAGE_SIZE] and returns the limit
    itself up to that bound, also a zero or negative one.  [get_offset] works
    on the limit as given: while the limit is between 1 and [MAX_PAGE_SIZE]
    the windows of [validate_limit] rows starting at [get_offset] tile the
    rows, each row index lying on exactly one page; above [MAX_PAGE_SIZE]
    they leave gaps, the rows whose index modulo the limit is at least
    [MAX_PAGE_SIZE] being on no page at all. *)
Theorem pagination_params_windows (limit : Z) :
  let params page := PaginationParams.mk page limit in
  let on_page i page :=
    PaginationParams.get_offset (params page) ≤ i
    < PaginationParams.get_offset (params page)
      + PaginationParams.validate_limit (params page) in
  (∀ page, PaginationParams.validate_limit (params page)
           = Z.min limit settings.MAX_PAGE_SIZE)
  ∧ (1 ≤ limit ≤ settings.MAX_PAGE_SIZE →
     ∀ i page, 0 ≤ i → (on_page i page ↔ page = i / limit + 1))
  ∧ (settings.MAX_PAGE_SIZE < limit →
     ∀ i page, settings.MAX_PAGE_SIZE ≤ i mod limit → ¬ on_page i page).
Proof.
  cbv zeta.
  unfold PaginationParams.get_offset, PaginationParams.validate_limit,
    settings.MAX_PAGE_SIZE; cbn.
  split_and!.
  - intros _. destruct (limit >? 100) eqn:E; lia.
  - intros Hl i page Hi. replace (limit >? 100) with false by lia.
    pose proof (Z.div_mod i limit ltac:(lia)) as Hdm.
    pose proof (Z.mod_pos_bound i limit ltac:(lia)) as Hm.
    split; [intros Hw|intros ->]; nia.
  - intros Hl i page Hgap. replace (limit >? 100) with true by lia.
    intros Hw.
    assert (i mod limit = i - (page - 1) * limit) as E.
    { symmetry. apply (Z.mod_unique_pos i limit (page - 1)); lia. }
    lia.
Qed.

Lemma pagination_params_windows_witness :
  settings.MAX_PAGE_SIZE < 150
  ∧ settings.MAX_PAGE_SIZE ≤ 120 mod 150
  ∧ ¬ (PaginationParams.get_offset (PaginationParams.mk 1 150) ≤ 120
       < PaginationParams.get_offset (PaginationParams.mk 1 150)
         + PaginationParams.validate_limit (PaginationParams.mk 1 150)).
Proof.
  assert (settings.MAX_PAGE_SIZE < 150) as Hl by (vm_compute; reflexivity).
  assert (settings.MAX_PAGE_SIZE ≤ 120 mod 150) as Hgap by (vm_compute; discriminate).
  split_and!; [exact Hl|exact Hgap|].
  exact (proj2 (proj2 (pagination_params_windows 150)) Hl 120 1 Hgap).
Defined.

(** * The categories router *)

(** ** Queries on any table *)

Section Filters.
Context {A K : Type} `{EqDecision K} (key : A → K).

Lemma filter_none (x : K) (l : list A) :
  x ∉ key <$> l → filter (λ a, key a = x) l = [].
Proof.
  induction l as [|a l IH]; intros Hout; [done|].
  rewrite fmap_cons in Hout. apply not_elem_of_cons in Hout as [Hne Hout].
  rewrite filter_cons_False by done. by apply IH.
Qed.

Lemma filter_one (x : K) (l : list A) (a : A) :
  NoDup (key <$> l) → a ∈ l → key a = x → filter (λ a, key a = x) l = [a].
Proof.
  induction l as [|b l IH]; intros Hnd Ha Hx.
  - by apply elem_of_nil in Ha.
  - rewrite fmap_cons in Hnd. apply NoDup_cons in Hnd as [Hb Hnd].
    apply elem_of_cons in Ha as [->|Ha].
    + rewrite filter_cons_True by done. f_equal.
      apply filter_none. by rewrite <- Hx.
    + rewrite filter_cons_False; [by apply IH|].
      intros Hbx. apply Hb. rewrite Hbx, <- Hx. by apply list_elem_of_fmap_2.
Qed.


Lemma column_inj (l : list A) (a b : A) :
  NoDup (key <$> l) → a ∈ l → b ∈ l → key a = key b → a = b.
Proof.
  intros Hnd Ha Hb E.
  pose proof (filter_one (key b) l a Hnd Ha E) as E1.
  pose proof (filter_one (key b) l b Hnd Hb eq_refl) as E2.
  congruence.
Qed.

End Filters.


(** Unfolds the session operations of a handler of the categories router. *)
Ltac run_categories :=
  unfold Categories.get_db, Categories.bind, Categories.ret, Categories.raise,
    Categories.execute_select, Categories.scalar_one_or_none, Categories.add,
    Categories.assign, Categories.commit, Categories.refresh,
    Categories.rollback; cbn.


Section CategoriesFacts.
Import Categories.

Lemma clashes_false (row : ProductCategory.t) (table : Categories.Table) :
  ProductCategory.name row ∉ ProductCategory.name <$> table →
  ProductCategory.slug row ∉ ProductCategory.slug <$> table →
  clashes row table = false.
Proof. intros Hn Hs. unfold clashes. by rewrite !bool_decide_eq_false_2. Qed.


End CategoriesFacts.


(** ** Rows replaced in place *)

Section Replace.
Import Categories.

Lemma replaced_absent cid row (table : Categories.Table) :
  cid ∉ ProductCategory.id <$> table → replaced cid row table = table.
Proof.
  induction table as [|a l IH]; [done|].
  rewrite fmap_cons. intros Hout. apply not_elem_of_cons in Hout as [Hne Hout].
  unfold replaced in *. cbn. rewrite bool_decide_eq_false_2 by done.
  by rewrite IH.
Qed.

Lemma replaced_ids cid row (table : Categories.Table) :
  ProductCategory.id row = cid →
  ProductCategory.id <$> replaced cid row table = ProductCategory.id <$> table.
Proof.
  intros Hid. unfold replaced. rewrite <- list_fmap_compose.
  apply list_fmap_ext. intros i r _. cbn. by case_bool_decide; subst.
Qed.

Lemma elem_of_replaced cid row (table : Categories.Table) (x : ProductCategory.t) :
  x ∈ replaced cid row table →
  x = row ∨ (x ∈ table ∧ ProductCategory.id x ≠ cid).
Proof.
  unfold replaced. intros Hx. apply list_elem_of_fmap in Hx as (r & -> & Hr).
  case_bool_decide; [by left|by right].
Qed.

Lemma replaced_elem_of cid row (table : Categories.Table) (r : ProductCategory.t) :
  r ∈ table → ProductCategory.id r = cid → row ∈ replaced cid row table.
Proof.
  intros Hr Hid. unfold replaced. apply list_elem_of_fmap.
  exists r. by rewrite bool_decide_eq_true_2.
Qed.

Lemma replaced_others cid row (table : Categories.Table) (x : ProductCategory.t) :
  x ∈ table → ProductCategory.id x ≠ cid → x ∈ replaced cid row table.
Proof.
  intros Hx Hne. unfold replaced. apply list_elem_of_fmap.
  exists x. by rewrite bool_decide_eq_false_2.
Qed.

(** A unique column stays unique when the new row's value is not among the
    other rows' values. *)
Lemma replaced_NoDup {K} (key : ProductCategory.t → K) cid row
    (table : Categories.Table) :
  NoDup (ProductCategory.id <$> table) →
  NoDup (key <$> table) →
  key row ∉ key <$> filter (λ r, ProductCategory.id r ≠ cid) table →
  NoDup (key <$> replaced cid row table).
Proof.
  induction table as [|a l IH]; [done|].
  rewrite !fmap_cons. intros Hids Hkeys Hout.
  apply NoDup_cons in Hids as [Ha Hids]. apply NoDup_cons in Hkeys as [Hka Hkeys].
  unfold replaced in *. cbn. case_bool_decide as Hid.
  - rewrite filter_cons_False in Hout by (intros ?; done).
    subst cid. fold (replaced (ProductCategory.id a) row l).
    rewrite replaced_absent by done.
    assert (filter (λ r, ProductCategory.id r ≠ ProductCategory.id a) l = l) as E.
    { clear -Ha. induction l as [|b l IH]; [done|].
      rewrite fmap_cons in Ha. apply not_elem_of_cons in Ha as [Hne Ha].
      rewrite filter_cons_True by done. by rewrite IH. }
    rewrite E in Hout. by apply NoDup_cons.
  - rewrite filter_cons_True in Hout by done.
    rewrite fmap_cons in Hout. apply not_elem_of_cons in Hout as [Hne Hout].
    apply NoDup_cons. split; [|by apply IH].
    intros Hin. apply list_elem_of_fmap in Hin as (x & Hx & Hin).
    apply elem_of_replaced in Hin as [->|[Hin _]]; [done|].
    apply Hka. rewrite Hx. by apply list_elem_of_fmap_2.
Qed.

(** The other rows of a table with unique names and slugs do not clash with
    a row that keeps the name and the slug of the row it replaces. *)
Lemma others_no_clash (row r : ProductCategory.t) (table : Categories.Table) :
  table_ok table → r ∈ table →
  ProductCategory.name row = ProductCategory.name r →
  ProductCategory.slug row = ProductCategory.slug r →
  clashes row (filter (λ x, ProductCategory.id x ≠ ProductCategory.id r) table) = false.
Proof.
  intros (Hid & Hname & Hslug) Hr Hn Hs. apply clashes_false.
  - intros Hin. apply list_elem_of_fmap in Hin as (x & Hx & Hin).
    apply list_elem_of_filter in Hin as [Hne Hin]. apply Hne. f_equal.
    apply (column_inj ProductCategory.name table); [done..|congruence].
  - intros Hin. apply list_elem_of_fmap in Hin as (x & Hx & Hin).
    apply list_elem_of_filter in Hin as [Hne Hin]. apply Hne. f_equal.
    apply (column_inj ProductCategory.slug table); [done..|congruence].
Qed.

End Replace.

Section CategoryHandlers.
Import Categories.


Lemma row_of_setattrs_id (r row : ProductCategory.t) (upd : ProductCategoryUpdate.t) :
  row_of (setattrs (load r) upd) = Some row →
  ProductCategory.id row = ProductCategory.id r.
Proof.
  unfold row_of. repeat case_match; try done. by intros [= <-].
Qed.

Lemma lookup_missing (cid : string) (db : Categories.Table) :
  cid ∉ ProductCategory.id <$> db →
  filter (λ r, ProductCategory.id r = cid) db = [].
Proof. apply (filter_none ProductCategory.id). Qed.

Lemma lookup_found (cid : string) (db : Categories.Table) (r : ProductCategory.t) :
  NoDup (ProductCategory.id <$> db) → r ∈ db → ProductCategory.id r = cid →
  filter (λ r, ProductCategory.id r = cid) db = [r].
Proof. apply (filter_one ProductCategory.id). Qed.

Lemma lookup_replaced (cid : string) (db : Categories.Table)
    (r row : ProductCategory.t) :
  NoDup (ProductCategory.id <$> db) → r ∈ db →
  ProductCategory.id r = cid → ProductCategory.id row = cid →
  filter (λ r, ProductCategory.id r = cid) (replaced cid row db) = [row].
Proof.
  intros Hid Hr Hrid Hrow. apply (filter_one ProductCategory.id); [|by eapply replaced_elem_of|done].
  by rewrite replaced_ids.
Qed.

Lemma get_category_found (now : Z) (category_id : string) (db : Categories.Table)
    (r : ProductCategory.t) :
  NoDup (ProductCategory.id <$> db) → r ∈ db → ProductCategory.id r = category_id →
  Categories.get_db now (get_category category_id) db
  = (Ok r, Categories.mkSession db [] []).
Proof.
  intros Hid Hr Hrid. unfold get_category. run_categories.
  by rewrite (lookup_found _ _ r).
Qed.

(** The UPDATE that goes through. *)
Lemma update_category_written (now : Z) (category_id : string)
    (category_data : ProductCategoryUpdate.t) (db : Categories.Table)
    (r row : ProductCategory.t) :
  table_ok db → r ∈ db → ProductCategory.id r = category_id →
  setattrs (load r) category_data ≠ load r →
  row_of (setattrs (load r) category_data) = Some row →
  (∀ x, x ∈ db → ProductCategory.id x ≠ category_id →
        ProductCategory.name x ≠ ProductCategory.name row
        ∧ ProductCategory.slug x ≠ ProductCategory.slug row) →
  Categories.get_db now (update_category now category_id category_data) db
  = (Ok (touch now row),
     Categories.mkSession (replaced category_id (touch now row) db) [] []).
Proof.
  intros (Hid & Hname & Hslug) Hr Hrid Hdiff Hrow Hfree.
  pose proof (row_of_setattrs_id _ _ _ Hrow) as Hrowid.
  unfold update_category. run_categories.
  rewrite (lookup_found _ _ r) by done. cbn.
  unfold flush_update. rewrite bool_decide_eq_false_2 by done.
  rewrite Hrow. cbn. rewrite clashes_false; cbn.
  - rewrite Hrid. rewrite (lookup_replaced _ _ r) by (done || by rewrite <- Hrid).
    done.
  - intros Hin. apply list_elem_of_fmap in Hin as (x & Hx & Hin).
    apply list_elem_of_filter in Hin as [Hne Hin].
    destruct (Hfree x Hin ltac:(congruence)) as [Hn _]. by apply Hn.
  - intros Hin. apply list_elem_of_fmap in Hin as (x & Hx & Hin).
    apply list_elem_of_filter in Hin as [Hne Hin].
    destruct (Hfree x Hin ltac:(congruence)) as [_ Hs]. by apply Hs.
Qed.

(** X12.  [get_category] answers with the row that has the identifier,
    active or not, and with 404 when no row has it; it writes nothing. *)
Theorem get_category_outcomes (now : Z) (category_id : string) (db : Categories.Table) :
  let run := Categories.get_db now (get_category category_id) db in
  (category_id ∉ ProductCategory.id <$> db →
   run = (Raise (NotFoundException ("Category with ID " +:+ category_id +:+ " not found")),
          Categories.mkSession db [] []))
  ∧ (∀ r, NoDup (ProductCategory.id <$> db) → r ∈ db →
          ProductCategory.id r = category_id →
          run = (Ok r, Categories.mkSession db [] [])).
Proof.
  cbv zeta. unfold get_category. split.
  - intros Hout. run_categories. by rewrite lookup_missing.
  - intros r Hid Hr Hrid. by apply get_category_found.
Qed.


End CategoryHandlers.

Section CategoryLifecycle.
Import Categories.

(** The row [delete_category] writes for an active category. *)
Lemma delete_category_inactive (now : Z) (category_id : string)
    (db : Categories.Table) (r : ProductCategory.t) :
  NoDup (ProductCategory.id <$> db) → r ∈ db → ProductCategory.id r = category_id →
  ProductCategory.is_active r = false →
  Categories.get_db now (delete_category now category_id) db
  = (Ok tt, Categories.mkSession db [] []).
Proof.
  intros Hid Hr Hrid Hact. unfold delete_category. run_categories.
  rewrite (lookup_found _ _ r) by done. cbn.
  unfold flush_update. rewrite bool_decide_eq_true_2; [done|].
  unfold load. cbn. by rewrite Hact.
Qed.

Lemma delete_category_active (now : Z) (category_id : string)
    (db : Categories.Table) (r : ProductCategory.t) :
  table_ok db → r ∈ db → ProductCategory.id r = category_id →
  ProductCategory.is_active r = true →
  Categories.get_db now (delete_category now category_id) db
  = (Ok tt,
     Categories.mkSession
       (replaced category_id {|
          ProductCategory.id := ProductCategory.id r;
          ProductCategory.name := ProductCategory.name r;
          ProductCategory.slug := ProductCategory.slug r;
          ProductCategory.description := ProductCategory.description r;
          ProductCategory.is_active := false;
          ProductCategory.sort_order := ProductCategory.sort_order r;
          ProductCategory.created_at := ProductCategory.created_at r;
          ProductCategory.updated_at := now |} db) [] []).
Proof.
  intros Hok Hr Hrid Hact. pose proof Hok as (Hid & _ & _).
  unfold delete_category. run_categories.
  rewrite (lookup_found _ _ r) by done. cbn.
  unfold flush_update. rewrite bool_decide_eq_false_2.
  2:{ unfold load. cbn. rewrite Hact. intros [=]. }
  cbn. rewrite others_no_clash by done. cbn. by rewrite Hrid.
Qed.

(** X14.  [delete_category] answers 404 for an unknown identifier.  For a
    known one it answers with success and never removes the row: an active
    category is written back with [is_active] false and [updated_at] at the
    time of the request, every other column as it was; for a category that
    is already inactive nothing is written at all. *)
Theorem delete_category_outcomes (now : Z) (category_id : string)
    (db : Categories.Table) :
  let run := Categories.get_db now (delete_category now category_id) db in
  (category_id ∉ ProductCategory.id <$> db →
   run = (Raise (NotFoundException ("Category with ID " +:+ category_id +:+ " not found")),
          Categories.mkSession db [] []))
  ∧ (∀ r, table_ok db → r ∈ db → ProductCategory.id r = category_id →
      let deactivated := {|
        ProductCategory.id := ProductCategory.id r;
        ProductCategory.name := ProductCategory.name r;
        ProductCategory.slug := ProductCategory.slug r;
        ProductCategory.description := ProductCategory.description r;
        ProductCategory.is_active := false;
        ProductCategory.sort_order := ProductCategory.sort_order r;
        ProductCategory.created_at := ProductCategory.created_at r;
        ProductCategory.updated_at := now
      |} in
      (ProductCategory.is_active r = false →
       run = (Ok tt, Categories.mkSession db [] []))
      ∧ (ProductCategory.is_active r = true →
         run = (Ok tt, Categories.mkSession (replaced category_id deactivated db) [] []))).
Proof.
  cbv zeta. unfold delete_category. split.
  { intros Hout. run_categories. by rewrite lookup_missing. }
  intros r Hok Hr Hrid. pose proof Hok as (Hid & _ & _). split.
  - intros Hact. by apply (delete_category_inactive _ _ _ r).
  - intros Hact. by apply (delete_category_active _ _ _ r).
Qed.

Lemma by_sort_order_name_total : Total by_sort_order_name.
Proof.
  intros a b. unfold by_sort_order_name.
  destruct (Z.lt_trichotomy (ProductCategory.sort_order a) (ProductCategory.sort_order b))
    as [?|[E|?]]; [by left; left| |by right; left].
  destruct (String.leb_total (ProductCategory.name a) (ProductCategory.name b));
    [left|right]; right; by split.
Qed.

(** X15.  [list_categories] answers with the active categories and no other
    row, each as often as it is in the table, in an order in which no
    category is followed by one with a smaller [sort_order], or with the same
    [sort_order] and a name that sorts strictly before; it writes nothing. *)
Theorem list_categories_outcomes (now : Z) (db : Categories.Table) :
  ∃ categories,
    Categories.get_db now list_categories db
    = (Ok categories, Categories.mkSession db [] [])
    ∧ categories ≡ₚ filter (λ r, ProductCategory.is_active r = true) db
    ∧ Sorted by_sort_order_name categories.
Proof.
  eexists. split; [reflexivity|]. split.
  - apply merge_sort_Permutation.
  - apply Sorted_merge_sort, by_sort_order_name_total.
Qed.

Lemma list_categories_elem_of (now : Z) (db : Categories.Table)
    (categories : list ProductCategory.t) (x : ProductCategory.t) :
  (Categories.get_db now list_categories db).1 = Ok categories →
  x ∈ categories ↔ x ∈ db ∧ ProductCategory.is_active x = true.
Proof.
  intros [= <-]. rewrite merge_sort_Permutation, list_elem_of_filter. tauto.
Qed.

(** X16.  A category that [delete_category] deleted is still there for
    [get_category], with [is_active] false and its name and slug, it is no
    longer in the answer of [list_categories] while the listing of the other
    categories is as before, deleting it again succeeds and changes nothing,
    and an update with [is_active] true makes it active again. *)
Theorem delete_category_then (now later : Z) (category_id : string)
    (db : Categories.Table) (r : ProductCategory.t) :
  table_ok db → r ∈ db → ProductCategory.id r = category_id →
  let db' := Categories.store (Categories.get_db now (delete_category now category_id) db).2 in
  (∃ r', Categories.get_db later (get_category category_id) db'
         = (Ok r', Categories.mkSession db' [] [])
         ∧ ProductCategory.is_active r' = false
         ∧ ProductCategory.name r' = ProductCategory.name r
         ∧ ProductCategory.slug r' = ProductCategory.slug r)
  ∧ (∀ listed listed',
       (Categories.get_db now list_categories db).1 = Ok listed →
       (Categories.get_db later list_categories db').1 = Ok listed' →
       ∀ x, x ∈ listed' ↔ x ∈ listed ∧ ProductCategory.id x ≠ category_id)
  ∧ Categories.get_db later (delete_category later category_id) db'
    = (Ok tt, Categories.mkSession db' [] [])
  ∧ (∃ r', (Categories.get_db later
              (update_category later category_id
                 (ProductCategoryUpdate.mk None None None None (Some (Some true)))) db').1
           = Ok r'
           ∧ ProductCategory.is_active r' = true
           ∧ ProductCategory.id r' = category_id).
Proof.
  intros Hok Hr Hrid. cbv zeta.
  pose proof Hok as (Hid & Hname & Hslug).
  pose proof (delete_category_inactive now category_id db r Hid Hr Hrid) as Hinactive.
  pose proof (delete_category_active now category_id db r Hok Hr Hrid) as Hactive.
  set (gone := {|
        ProductCategory.id := ProductCategory.id r;
        ProductCategory.name := ProductCategory.name r;
        ProductCategory.slug := ProductCategory.slug r;
        ProductCategory.description := ProductCategory.description r;
        ProductCategory.is_active := false;
        ProductCategory.sort_order := ProductCategory.sort_order r;
        ProductCategory.created_at := ProductCategory.created_at r;
        ProductCategory.updated_at := now |}) in *.
  (* the table after the deletion, and the row of the category in it *)
  assert (∃ db' r',
            Categories.store (Categories.get_db now (delete_category now category_id) db).2 = db'
            ∧ table_ok db' ∧ r' ∈ db' ∧ ProductCategory.id r' = category_id
            ∧ ProductCategory.is_active r' = false
            ∧ ProductCategory.name r' = ProductCategory.name r
            ∧ ProductCategory.slug r' = ProductCategory.slug r
            ∧ (∀ x, ProductCategory.id x ≠ category_id → x ∈ db' ↔ x ∈ db))
    as (db' & r' & -> & Hok' & Hr' & Hrid' & Hact' & Hn' & Hs' & Hrest).
  { destruct (ProductCategory.is_active r) eqn:Hact.
    - rewrite (Hactive eq_refl). exists (replaced category_id gone db), gone.
      split_and!; try done.
      + unfold table_ok. split_and!.
        * by rewrite replaced_ids.
        * apply replaced_NoDup; [done..|]. rewrite <- Hrid.
          pose proof (others_no_clash gone r db Hok Hr eq_refl eq_refl) as Hc.
          unfold clashes in Hc. apply orb_false_iff in Hc as [Hc _].
          by apply bool_decide_eq_false in Hc.
        * apply replaced_NoDup; [done..|]. rewrite <- Hrid.
          pose proof (others_no_clash gone r db Hok Hr eq_refl eq_refl) as Hc.
          unfold clashes in Hc. apply orb_false_iff in Hc as [_ Hc].
          by apply bool_decide_eq_false in Hc.
      + by eapply replaced_elem_of.
      + intros x Hx. split.
        * intros Hin. apply elem_of_replaced in Hin as [->|[Hin _]]; [done|done].
        * intros Hin. by apply replaced_others.
    - rewrite (Hinactive eq_refl). exists db, r. split_and!; done. }
  pose proof Hok' as (Hid' & _ & _).
  split_and!.
  - exists r'. split; [|done].
    by apply get_category_found.
  - intros listed listed' Hl Hl' x.
    rewrite (list_categories_elem_of later db' listed' x Hl').
    rewrite (list_categories_elem_of now db listed x Hl).
    split.
    + intros [Hx Hxact].
      assert (ProductCategory.id x ≠ category_id) as Hne.
      { intros E. assert (x = r') as ->; [|congruence].
        apply (column_inj ProductCategory.id db'); [done..|congruence]. }
      split; [|done]. split; [|done]. by apply Hrest.
    + intros [[Hx Hxact] Hne]. split; [|done]. by apply Hrest.
  - by apply (delete_category_inactive _ _ _ r').
  - pose proof (update_category_written later category_id
                  (ProductCategoryUpdate.mk None None None None (Some (Some true)))
                  db' r') as Hupd.
    eexists. split; [|split].
    + erewrite Hupd; [reflexivity|done..| | |].
      * unfold setattrs, load. cbn. rewrite Hact'. intros [=].
      * unfold setattrs, load, row_of. cbn. reflexivity.
      * cbn. intros x Hx Hne. pose proof Hok' as (_ & Hname' & Hslug').
        split; intros E; apply Hne; rewrite <- Hrid'; f_equal.
        -- by apply (column_inj ProductCategory.name db').
        -- by apply (column_inj ProductCategory.slug db').
    + done.
    + done.
Qed.

End CategoryLifecycle.

Section CategoryInvariant.
Import Categories.

Lemma clashes_false_inv (row : ProductCategory.t) (table : Categories.Table) :
  clashes row table = false →
  (ProductCategory.name row ∉ ProductCategory.name <$> table)
  ∧ (ProductCategory.slug row ∉ ProductCategory.slug <$> table).
Proof.
  unfold clashes. intros Hc. apply orb_false_iff in Hc as [Hn Hs].
  split; [by apply bool_decide_eq_false in Hn|by apply bool_decide_eq_false in Hs].
Qed.

Lemma table_ok_snoc (table : Categories.Table) (row : ProductCategory.t) :
  table_ok table →
  ProductCategory.id row ∉ ProductCategory.id <$> table →
  clashes row table = false →
  table_ok (table ++ [row]).
Proof.
  intros (Hid & Hname & Hslug) Hi Hc.
  apply clashes_false_inv in Hc as [Hn Hs].
  unfold table_ok. rewrite !fmap_app. split_and!.
  all: apply NoDup_app; split_and!; [done| |apply NoDup_singleton].
  all: intros x Hx Hx'; apply list_elem_of_singleton in Hx'; by subst x.
Qed.

(** What one accepted UPDATE leaves of the constraints. *)
Lemma table_ok_flush_update (now : Z) (old : ProductCategory.t) (e : Entity.t)
    (table table' : Categories.Table) :
  table_ok table → Entity.id e = ProductCategory.id old →
  flush_update now old e table = Some table' → table_ok table'.
Proof.
  intros Hok Heid. pose proof Hok as (Hid & Hname & Hslug).
  unfold flush_update. case_bool_decide; [by intros [= <-]|].
  destruct (row_of e) as [row|] eqn:Hrow; [|done]. cbn.
  destruct (clashes _ _) eqn:Hc; [done|]. intros [= <-].
  apply clashes_false_inv in Hc as [Hn Hs]. cbn in Hn, Hs.
  assert (ProductCategory.id (touch now row) = ProductCategory.id old) as Hrowid.
  { cbn. unfold row_of in Hrow. repeat case_match; try done.
    injection Hrow as <-. done. }
  unfold table_ok. split_and!.
  - by rewrite replaced_ids.
  - by apply replaced_NoDup.
  - by apply replaced_NoDup.
Qed.

(** X17.  The three writing handlers keep the constraints of the table:
    whatever the request and whatever the answer, a table whose identifiers,
    names and slugs are unique is left as such a table by [create_category],
    [update_category] and [delete_category]. *)
Theorem categories_keep_table_ok (now : Z) (db : Categories.Table) :
  table_ok db →
  (∀ new_id category_data,
      table_ok (Categories.store
                  (Categories.get_db now (create_category new_id now category_data) db).2))
  ∧ (∀ category_id category_data,
      table_ok (Categories.store
                  (Categories.get_db now
                     (update_category now category_id category_data) db).2))
  ∧ (∀ category_id,
      table_ok (Categories.store
                  (Categories.get_db now (delete_category now category_id) db).2)).
Proof.
  intros Hok. split_and!.
  - intros new_id category_data. unfold create_category. run_categories.
    destruct (filter _ db) as [|a [|b l]]; cbn; [|done..].
    destruct (bool_decide _) eqn:Hi; cbn; [done|].
    destruct (clashes _ db) eqn:Hc; cbn; [done|].
    apply bool_decide_eq_false in Hi.
    assert (table_ok (db ++ [ {|
              ProductCategory.id := new_id;
              ProductCategory.name := ProductCategoryCreate.name category_data;
              ProductCategory.slug := ProductCategoryCreate.slug category_data;
              ProductCategory.description := ProductCategoryCreate.description category_data;
              ProductCategory.is_active := true;
              ProductCategory.sort_order := ProductCategoryCreate.sort_order category_data;
              ProductCategory.created_at := now;
              ProductCategory.updated_at := now |} ])) as Hok'
      by by apply table_ok_snoc.
    by repeat (case_match; simplify_eq/=).
  - intros category_id category_data. unfold update_category. run_categories.
    destruct (filter _ db) as [|r [|b l]]; cbn; [done| |done].
    destruct (flush_update _ _ _ _) as [table|] eqn:Hf; cbn; [|done].
    apply table_ok_flush_update in Hf; [|done..].
    by repeat (case_match; simplify_eq/=).
  - intros category_id. unfold delete_category. run_categories.
    destruct (filter _ db) as [|r [|b l]]; cbn; [done| |done].
    destruct (flush_update _ _ _ _) as [table|] eqn:Hf; cbn; [|done].
    by apply table_ok_flush_update in Hf.
Qed.

End CategoryInvariant.

(** ** The statements on the sample categories *)

Lemma sample_table_ok : Categories.table_ok CategoryFixtures.db.
Proof.
  apply (bool_decide_unpack (Categories.table_ok CategoryFixtures.db)).
  vm_compute. exact I.
Defined.

Lemma get_category_outcomes_witness :
  NoDup (ProductCategory.id <$> CategoryFixtures.db)
  ∧ CategoryFixtures.grips ∈ CategoryFixtures.db
  ∧ Categories.get_db CategoryFixtures.now
      (Categories.get_category (ProductCategory.id CategoryFixtures.grips))
      CategoryFixtures.db
    = (Ok CategoryFixtures.grips, Categories.mkSession CategoryFixtures.db [] []).
Proof.
  assert (CategoryFixtures.grips ∈ CategoryFixtures.db) as Hin by (right; by left).
  split_and!; [exact (proj1 sample_table_ok)|exact Hin|].
  exact (proj2 (get_category_outcomes CategoryFixtures.now
                  (ProductCategory.id CategoryFixtures.grips) CategoryFixtures.db)
           CategoryFixtures.grips (proj1 sample_table_ok) Hin eq_refl).
Defined.


Lemma delete_category_outcomes_witness :
  let cid := ProductCategory.id CategoryFixtures.strings in
  Categories.table_ok CategoryFixtures.db
  ∧ CategoryFixtures.strings ∈ CategoryFixtures.db
  ∧ ProductCategory.is_active CategoryFixtures.strings = true
  ∧ Categories.store
      (Categories.get_db CategoryFixtures.now
         (Categories.delete_category CategoryFixtures.now cid) CategoryFixtures.db).2
    = [ {|
          ProductCategory.id := cid;
          ProductCategory.name := "Strings";
          ProductCategory.slug := "strings";
          ProductCategory.description := Some "Tennis strings";
          ProductCategory.is_active := false;
          ProductCategory.sort_order := 2;
          ProductCategory.created_at := 1700000000;
          ProductCategory.updated_at := CategoryFixtures.now |};
        CategoryFixtures.grips ].
Proof.
  intros cid.
  assert (CategoryFixtures.strings ∈ CategoryFixtures.db) as Hin by by left.
  split_and!; [exact sample_table_ok|exact Hin|reflexivity|].
  exact (f_equal (λ r, Categories.store r.2)
           (proj2 (proj2 (delete_category_outcomes CategoryFixtures.now cid
                            CategoryFixtures.db)
                     CategoryFixtures.strings sample_table_ok Hin eq_refl) eq_refl)).
Defined.

Lemma delete_category_then_witness :
  let cid := ProductCategory.id CategoryFixtures.strings in
  let db' := Categories.store
               (Categories.get_db CategoryFixtures.now
                  (Categories.delete_category CategoryFixtures.now cid)
                  CategoryFixtures.db).2 in
  Categories.table_ok CategoryFixtures.db
  ∧ CategoryFixtures.strings ∈ CategoryFixtures.db
  ∧ Categories.get_db (CategoryFixtures.now + 60)
      (Categories.delete_category (CategoryFixtures.now + 60) cid) db'
    = (Ok tt, Categories.mkSession db' [] []).
Proof.
  intros cid db'.
  assert (CategoryFixtures.strings ∈ CategoryFixtures.db) as Hin by by left.
  split_and!; [exact sample_table_ok|exact Hin|].
  exact (proj1 (proj2 (proj2 (delete_category_then CategoryFixtures.now
                                (CategoryFixtures.now + 60) cid CategoryFixtures.db
                                CategoryFixtures.strings sample_table_ok Hin eq_refl)))).
Defined.

Lemma categories_keep_table_ok_witness :
  Categories.table_ok CategoryFixtures.db
  ∧ Categories.table_ok
      (Categories.store
         (Categories.get_db CategoryFixtures.now
            (Categories.update_category CategoryFixtures.now
               (ProductCategory.id CategoryFixtures.strings) CategoryFixtures.reorder)
            CategoryFixtures.db).2).
Proof.
  split; [exact sample_table_ok|].
  exact (proj1 (proj2 (categories_keep_table_ok CategoryFixtures.now
                         CategoryFixtures.db sample_table_ok))
           (ProductCategory.id CategoryFixtures.strings) CategoryFixtures.reorder).
Defined.

(** ** The maintenance listing *)

Section Pages.
Context {A : Type}.



End Pages.







(** ** The maintenance handlers that look one record up *)

(** Unfolds the session operations of a handler of the maintenance router. *)
Ltac run_maintenance :=
  unfold Maintenance.get_db, Maintenance.bind, Maintenance.ret, Maintenance.raise,
    Maintenance.execute_select, Maintenance.scalar_one_or_none, Maintenance.delete,
    Maintenance.commit, Maintenance.rollback; cbn.

Lemma delete_none (table : Maintenance.Table) :
  filter (λ r, MaintenanceRecord.id r ∉ @nil string) table = table.
Proof.
  induction table as [|r table IH]; [done|].
  rewrite filter_cons_True; [by rewrite IH|]. apply not_elem_of_nil.
Qed.

Lemma delete_one (table : Maintenance.Table) (r : MaintenanceRecord.t) :
  filter (λ x, MaintenanceRecord.id x ∉ [MaintenanceRecord.id r]) table
  = filter (λ x, MaintenanceRecord.id x ≠ MaintenanceRecord.id r) table.
Proof.
  apply list_filter_iff. intros x. by rewrite list_elem_of_singleton.
Qed.

Section MaintenanceHandlers.
Import Maintenance.
Variable table : Maintenance.Table.
Hypothesis primary_key : NoDup (MaintenanceRecord.id <$> table).

Lemma get_maintenance_record_missing (record_id : string) :
  record_id ∉ MaintenanceRecord.id <$> table →
  get_db (get_maintenance_record record_id) table
  = (Raised (Known (NotFoundException
                      ("Maintenance record with ID " +:+ record_id +:+ " not found"))),
     mkSession table []).
Proof.
  intros Hout. unfold get_maintenance_record. run_maintenance.
  by rewrite (filter_none MaintenanceRecord.id record_id table Hout).
Qed.

Lemma get_maintenance_record_found (r : MaintenanceRecord.t) :
  r ∈ table →
  get_db (get_maintenance_record (MaintenanceRecord.id r)) table
  = (Returned r, mkSession table []).
Proof.
  intros Hin. unfold get_maintenance_record. run_maintenance.
  rewrite (filter_one MaintenanceRecord.id _ table r primary_key Hin eq_refl). cbn.
  by rewrite delete_none.
Qed.

Lemma delete_maintenance_record_missing (record_id : string) :
  record_id ∉ MaintenanceRecord.id <$> table →
  get_db (delete_maintenance_record record_id) table
  = (Raised (Known (NotFoundException
                      ("Maintenance record with ID " +:+ record_id +:+ " not found"))),
     mkSession table []).
Proof.
  intros Hout. unfold delete_maintenance_record. run_maintenance.
  by rewrite (filter_none MaintenanceRecord.id record_id table Hout).
Qed.

Lemma delete_maintenance_record_found (r : MaintenanceRecord.t) :
  r ∈ table →
  get_db (delete_maintenance_record (MaintenanceRecord.id r)) table
  = (Returned tt,
     mkSession (filter (λ x, MaintenanceRecord.id x ≠ MaintenanceRecord.id r) table) []).
Proof.
  intros Hin. unfold delete_maintenance_record. run_maintenance.
  rewrite (filter_one MaintenanceRecord.id _ table r primary_key Hin eq_refl). cbn.
  by rewrite delete_one, delete_none.
Qed.

Lemma deleted_row (r : MaintenanceRecord.t) :
  r ∈ table →
  table ≡ₚ r :: filter (λ x, MaintenanceRecord.id x ≠ MaintenanceRecord.id r) table.
Proof.
  intros Hin.
  rewrite <- (filter_app_complement
                (λ x, MaintenanceRecord.id x = MaintenanceRecord.id r) table) at 1.
  by rewrite (filter_one MaintenanceRecord.id _ table r primary_key Hin eq_refl).
Qed.

Lemma deleted_primary_key (record_id : string) :
  NoDup (MaintenanceRecord.id
           <$> filter (λ x, MaintenanceRecord.id x ≠ record_id) table)
  ∧ record_id ∉ MaintenanceRecord.id
                  <$> filter (λ x, MaintenanceRecord.id x ≠ record_id) table.
Proof.
  split.
  - eapply sublist_NoDup; [exact primary_key|apply fmap_sublist, sublist_filter].
  - intros Hin. apply list_elem_of_fmap in Hin as (x & Hx & Hin).
    apply list_elem_of_filter in Hin as [Hne _]. by apply Hne.
Qed.

End MaintenanceHandlers.

(** X20.  [update_maintenance_record] never updates a record.  Whatever the
    body, whatever the table and whatever the statements after the call of
    [model_dump] would do, the request returns nothing and the table is left
    as it was.  On a table whose primary key is unique the answer is 404 for
    an unknown identifier and, for a known one, the [AttributeError] of the
    call of [model_dump] on the row, a 500. *)
Theorem update_maintenance_record_never_updates {UpdateData : Type}
    (setattrs_commit_refresh :
       MaintenanceRecord.t → UpdateData → Maintenance.Db MaintenanceRecord.t)
    (record_id : string) (record : MaintenanceRecordUpdate.t)
    (table : Maintenance.Table) :
  let run :=
    Maintenance.get_db
      (Maintenance.update_maintenance_record setattrs_commit_refresh record_id record)
      table in
  (∀ updated, run.1 ≠ Maintenance.Returned updated)
  ∧ run.2 = Maintenance.mkSession table []
  ∧ (NoDup (MaintenanceRecord.id <$> table) →
     (record_id ∉ MaintenanceRecord.id <$> table →
      run.1 = Maintenance.Raised
                (Maintenance.Known
                   (NotFoundException
                      ("Maintenance record with ID " +:+ record_id +:+ " not found"))))
     ∧ (record_id ∈ MaintenanceRecord.id <$> table →
        run.1 = Maintenance.Raised
                  (Maintenance.AttributeError "MaintenanceRecord" "model_dump")
        ∧ Maintenance.status_code 200 run.1 = HTTP_500_INTERNAL_SERVER_ERROR)).
Proof.
  cbv zeta. unfold Maintenance.update_maintenance_record, Maintenance.model_dump.
  run_maintenance.
  split_and!.
  - intros updated. by destruct (filter _ table) as [|? [|? ?]].
  - by destruct (filter _ table) as [|? [|? ?]].
  - intros Hpk. split.
    + intros Hout. by rewrite (filter_none MaintenanceRecord.id record_id table Hout).
    + intros Hin. apply list_elem_of_fmap in Hin as (r & -> & Hin).
      by rewrite (filter_one MaintenanceRecord.id _ table r Hpk Hin eq_refl).
Qed.

Lemma update_maintenance_record_never_updates_witness :
  let run :=
    Maintenance.get_db
      (Maintenance.update_maintenance_record
         (λ record (update_data : MaintenanceRecordUpdate.t), Maintenance.ret record)
         "m2"
         (MaintenanceRecordUpdate.mk None None None None None None None None None None
            None None None (Some (Some "restrung")) None None))
      MaintenanceFixtures.table in
  NoDup (MaintenanceRecord.id <$> MaintenanceFixtures.table)
  ∧ "m2" ∈ MaintenanceRecord.id <$> MaintenanceFixtures.table
  ∧ run.1 = Maintenance.Raised
              (Maintenance.AttributeError "MaintenanceRecord" "model_dump")
  ∧ Maintenance.status_code 200 run.1 = HTTP_500_INTERNAL_SERVER_ERROR.
Proof.
  intros run.
  assert (NoDup (MaintenanceRecord.id <$> MaintenanceFixtures.table)) as Hpk.
  { apply (bool_decide_unpack (NoDup (MaintenanceRecord.id <$> MaintenanceFixtures.table))).
    vm_compute. exact I. }
  assert ("m2" ∈ MaintenanceRecord.id <$> MaintenanceFixtures.table) as Hin.
  { apply (bool_decide_unpack ("m2" ∈ MaintenanceRecord.id <$> MaintenanceFixtures.table)).
    vm_compute. exact I. }
  split_and!; [exact Hpk|exact Hin|..];
    apply (proj2 (proj2 (proj2 (update_maintenance_record_never_updates
                                  (λ record (update_data : MaintenanceRecordUpdate.t),
                                     Maintenance.ret record)
                                  "m2"
                                  (MaintenanceRecordUpdate.mk None None None None None
                                     None None None None None None None None
                                     (Some (Some "restrung")) None None)
                                  MaintenanceFixtures.table)) Hpk) Hin).
Defined.

(** X21.  [delete_maintenance_record] on a table whose primary key is unique:
    404 for an unknown identifier, the table unchanged; for a known one the
    row is removed for good, every other row stays where it was, and the
    answer is the empty success. *)
Theorem delete_maintenance_record_outcomes (record_id : string)
    (table : Maintenance.Table) :
  NoDup (MaintenanceRecord.id <$> table) →
  let run := Maintenance.get_db (Maintenance.delete_maintenance_record record_id) table in
  (record_id ∉ MaintenanceRecord.id <$> table →
   run = (Maintenance.Raised
            (Maintenance.Known
               (NotFoundException
                  ("Maintenance record with ID " +:+ record_id +:+ " not found"))),
          Maintenance.mkSession table []))
  ∧ (∀ r, r ∈ table → MaintenanceRecord.id r = record_id →
       let table' := filter (λ x, MaintenanceRecord.id x ≠ record_id) table in
       run = (Maintenance.Returned tt, Maintenance.mkSession table' [])
       ∧ (table ≡ₚ r :: table')
       ∧ (r ∉ table')
       ∧ NoDup (MaintenanceRecord.id <$> table')).
Proof.
  intros Hpk run. split.
  - apply (delete_maintenance_record_missing table).
  - intros r Hin <- table'. split_and!.
    + by apply delete_maintenance_record_found.
    + by apply deleted_row.
    + intros Hin'. by apply list_elem_of_filter in Hin' as [Hne _].
    + apply (deleted_primary_key table Hpk).
Qed.

Lemma delete_maintenance_record_outcomes_witness :
  NoDup (MaintenanceRecord.id <$> MaintenanceFixtures.table)
  ∧ MaintenanceFixtures.second ∈ MaintenanceFixtures.table
  ∧ Maintenance.get_db (Maintenance.delete_maintenance_record "m2")
      MaintenanceFixtures.table
    = (Maintenance.Returned tt,
       Maintenance.mkSession [MaintenanceFixtures.first; MaintenanceFixtures.third] []).
Proof.
  assert (NoDup (MaintenanceRecord.id <$> MaintenanceFixtures.table)) as Hpk.
  { apply (bool_decide_unpack (NoDup (MaintenanceRecord.id <$> MaintenanceFixtures.table))).
    vm_compute. exact I. }
  assert (MaintenanceFixtures.second ∈ MaintenanceFixtures.table) as Hin
    by (right; left).
  split_and!; [exact Hpk|exact Hin|].
  exact (proj1 (proj2 (delete_maintenance_record_outcomes "m2"
                         MaintenanceFixtures.table Hpk)
                  MaintenanceFixtures.second Hin eq_refl)).
Defined.

(** X22.  After [delete_maintenance_record] removed a record, the record is
    gone for every handler of the router: looking it up and deleting it
    again answer 404, the look-up of every other record answers as before,
    and in every listing the total is one less when the record matched the
    filters, the same when it did not, and the record is among the items of
    no page. *)
Theorem delete_maintenance_record_then (table : Maintenance.Table)
    (r : MaintenanceRecord.t) :
  NoDup (MaintenanceRecord.id <$> table) → r ∈ table →
  let record_id := MaintenanceRecord.id r in
  let not_found :=
    Maintenance.Known
      (NotFoundException ("Maintenance record with ID " +:+ record_id +:+ " not found")) in
  let table' :=
    Maintenance.store
      (Maintenance.get_db (Maintenance.delete_maintenance_record record_id) table).2 in
  Maintenance.get_db (Maintenance.get_maintenance_record record_id) table'
  = (Maintenance.Raised not_found, Maintenance.mkSession table' [])
  ∧ Maintenance.get_db (Maintenance.delete_maintenance_record record_id) table'
    = (Maintenance.Raised not_found, Maintenance.mkSession table' [])
  ∧ (∀ other, other ∈ table → other ≠ r →
       Maintenance.get_db
         (Maintenance.get_maintenance_record (MaintenanceRecord.id other)) table'
       = (Maintenance.Returned other, Maintenance.mkSession table' []))
  ∧ (∀ page limit racket type date_from date_to before after,
       Maintenance.list_maintenance_records page limit racket type date_from date_to table
       = Some before →
       Maintenance.list_maintenance_records page limit racket type date_from date_to table'
       = Some after →
       PaginatedResponse.total after
       = PaginatedResponse.total before
         - (if decide (Maintenance.matches racket type date_from date_to r) then 1 else 0)
       ∧ r ∉ PaginatedResponse.items after).
Proof.
  intros Hpk Hin record_id not_found table'.
  assert (table' = filter (λ x, MaintenanceRecord.id x ≠ record_id) table) as Htable'.
  { unfold table', record_id. by rewrite delete_maintenance_record_found. }
  destruct (deleted_primary_key table Hpk record_id) as [Hpk' Hout'].
  rewrite <- Htable' in Hpk', Hout'.
  split_and!.
  - by apply get_maintenance_record_missing.
  - by apply delete_maintenance_record_missing.
  - intros other Hother Hne. apply get_maintenance_record_found; [done|].
    rewrite Htable'. apply list_elem_of_filter. split; [|done].
    intros E. apply Hne. by apply (column_inj MaintenanceRecord.id table).
  - intros page limit racket type date_from date_to before after Hbefore Hafter.
    unfold Maintenance.list_maintenance_records, PaginatedResponse.create in *.
    destruct (limit =? 0); [done|].
    injection Hbefore as <-. injection Hafter as <-.
    cbn [PaginatedResponse.total PaginatedResponse.items]. split.
    + pose proof (deleted_row table Hpk r Hin) as Hperm.
      fold record_id in Hperm. rewrite <- Htable' in Hperm.
      rewrite (Permutation_length
                 (filter_Permutation (Maintenance.matches racket type date_from date_to)
                    _ _ Hperm)).
      destruct (decide (Maintenance.matches racket type date_from date_to r)) as [Hm|Hm].
      * rewrite filter_cons_True by done. cbn [length]. lia.
      * rewrite filter_cons_False by done. lia.
    + intros Hitem.
      eapply elem_of_sublist in Hitem;
        [|etrans; [apply sublist_take|apply sublist_drop]].
      unfold Maintenance.selected in Hitem.
      rewrite merge_sort_Permutation in Hitem.
      apply list_elem_of_filter in Hitem as [_ Hitem].
      apply Hout'. by apply list_elem_of_fmap_2.
Qed.

Lemma delete_maintenance_record_then_witness :
  let table' :=
    Maintenance.store
      (Maintenance.get_db (Maintenance.delete_maintenance_record "m2")
         MaintenanceFixtures.table).2 in
  NoDup (MaintenanceRecord.id <$> MaintenanceFixtures.table)
  ∧ MaintenanceFixtures.second ∈ MaintenanceFixtures.table
  ∧ Maintenance.get_db (Maintenance.get_maintenance_record "m2") table'
    = (Maintenance.Raised
         (Maintenance.Known
            (NotFoundException "Maintenance record with ID m2 not found")),
       Maintenance.mkSession table' []).
Proof.
  intros table'.
  assert (NoDup (MaintenanceRecord.id <$> MaintenanceFixtures.table)) as Hpk.
  { apply (bool_decide_unpack (NoDup (MaintenanceRecord.id <$> MaintenanceFixtures.table))).
    vm_compute. exact I. }
  assert (MaintenanceFixtures.second ∈ MaintenanceFixtures.table) as Hin
    by (right; left).
  split_and!; [exact Hpk|exact Hin|].
  exact (proj1 (delete_maintenance_record_then MaintenanceFixtures.table
                  MaintenanceFixtures.second Hpk Hin)).
Defined.
